(** * Schema emission of gen-o-call ([lib/proto.go])

    A shallow embedding of [SaveProtobuf], [Function.SaveProtobuf],
    [Function.saveProtobufDir], [protoWriteMessageTyp], [protoType],
    [protoOptions.String] and [mkRecTypName], followed by the properties
    of the emitted schema text. *)

From Stdlib Require Import ZArith String Ascii List Lia.
From Stdlib Require Import DecimalString DecimalNat.
From stdpp Require Import gmap strings list.

Local Open Scope string_scope.

(** ** Go strings

    Go strings are byte sequences; they are modelled by [string], one
    [ascii] per byte.  The helpers below are the parts of package
    [strings] and [fmt] that [proto.go] calls. *)
Module GoStr.

Definition nl : string := String "010"%char EmptyString.
Definition tab : string := String "009"%char EmptyString.
Definition dq : string := String "034"%char EmptyString.

(** [strings.HasPrefix s p]. *)
Definition HasPrefix (s p : string) : bool := String.prefix p s.

Fixpoint drop (n : nat) (s : string) : string :=
  match n, s with
  | O, _ => s
  | S n', String _ s' => drop n' s'
  | S _, EmptyString => EmptyString
  end.

(** [strings.TrimPrefix s p]. *)
Definition TrimPrefix (s p : string) : string :=
  if HasPrefix s p then drop (String.length p) s else s.

(** [strings.HasSuffix s suf]. *)
Definition HasSuffix (s suf : string) : bool :=
  (String.length suf <=? String.length s)%nat
  && String.eqb (drop (String.length s - String.length suf) s) suf.

(** [unicode.ToLower] on one byte.  Only the ASCII letters A to Z are
    mapped; bytes from 128 on (where Go decodes UTF-8) are kept. *)
Definition lower_byte (c : ascii) : ascii :=
  let n := nat_of_ascii c in
  if ((65 <=? n) && (n <=? 90))%nat then ascii_of_nat (n + 32) else c.

(** [strings.ToLower]. *)
Fixpoint ToLower (s : string) : string :=
  match s with
  | EmptyString => EmptyString
  | String c s' => String (lower_byte c) (ToLower s')
  end.

(** [strings.Replace s old new (-1)] and a one-pair [strings.Replacer],
    for an [old] of exactly one byte (both uses in [proto.go]). *)
Fixpoint ReplaceByte (old : ascii) (new : string) (s : string) : string :=
  match s with
  | EmptyString => EmptyString
  | String c s' =>
      if Ascii.eqb c old then new ++ ReplaceByte old new s'
      else String c (ReplaceByte old new s')
  end.

(** The verb [%d] on a non-negative [int]. *)
Definition itoa (n : nat) : string :=
  NilEmpty.string_of_uint (Nat.to_uint n).

Definition hex_digit (n : nat) : ascii :=
  if (n <? 10)%nat then ascii_of_nat (48 + n) else ascii_of_nat (87 + n).

(** One byte under [strconv.Quote]: the quote and the backslash are
    escaped, control bytes are written by their short escape or as
    [\xNN], printable ASCII is kept.  The model is exact on ASCII
    strings; a byte from 128 on is written as [\xNN], as Go writes a
    byte that is not part of a valid UTF-8 sequence. *)
Definition quote_byte (c : ascii) : string :=
  let n := nat_of_ascii c in
  let bs := String "092"%char EmptyString in
  if (n =? 34)%nat then bs ++ dq
  else if (n =? 92)%nat then bs ++ bs
  else if (n =? 7)%nat then bs ++ "a"
  else if (n =? 8)%nat then bs ++ "b"
  else if (n =? 12)%nat then bs ++ "f"
  else if (n =? 10)%nat then bs ++ "n"
  else if (n =? 13)%nat then bs ++ "r"
  else if (n =? 9)%nat then bs ++ "t"
  else if (n =? 11)%nat then bs ++ "v"
  else if ((32 <=? n) && (n <? 127))%nat then String c EmptyString
  else bs ++ "x" ++ String (hex_digit (n / 16)) (String (hex_digit (n mod 16)) EmptyString).

Fixpoint quote_body (s : string) : string :=
  match s with
  | EmptyString => EmptyString
  | String c s' => quote_byte c ++ quote_body s'
  end.

(** The verb [%q] on a string. *)
Definition Quote (s : string) : string := dq ++ quote_body s ++ dq.

(** Whether [sub] occurs in [s] ([strings.Contains]), and how often a
    match starts in [s] (overlapping matches counted). *)
Fixpoint Contains (s sub : string) : bool :=
  HasPrefix s sub ||
  match s with
  | EmptyString => false
  | String _ s' => Contains s' sub
  end.

Fixpoint occurrences (sub s : string) : nat :=
  (if HasPrefix s sub then 1 else 0) +
  match s with
  | EmptyString => 0
  | String _ s' => occurrences sub s'
  end.

End GoStr.
Import GoStr.

(** ** The type model *)

(** Modelled from the spec: the constants [FLAVOR_SIMPLE] and
    [FLAVOR_TABLE] and their type are declared outside [proto.go]; the
    data model gives three flavours, the third being the record case. *)
Inductive flavor : Type := FLAVOR_SIMPLE | FLAVOR_RECORD | FLAVOR_TABLE.

Definition flavor_eqb (a b : flavor) : bool :=
  match a, b with
  | FLAVOR_SIMPLE, FLAVOR_SIMPLE
  | FLAVOR_RECORD, FLAVOR_RECORD
  | FLAVOR_TABLE, FLAVOR_TABLE => true
  | _, _ => false
  end.

(** The fields of [Argument] that [proto.go] reads.  [TableOf] is a
    pointer ([None] is nil); [RecordOf] is a slice that may be nil. *)
#[local] Unset Elimination Schemes.
Inductive Argument : Type :=
  mkArgument {
      Name : string;
      Direction : Z;
      Flavor : flavor;
      AbsType : string;
      TableOf : option Argument;
      RecordOf : option (list NamedArgument)
    }
with NamedArgument : Type :=
  mkNamedArgument {
      FieldName : string;
      NA_Argument : Argument
    }.
#[local] Set Elimination Schemes.

Record Function : Type :=
  mkFunction {
      name : string;
      Args : list Argument;
      Returns : option Argument;
      Documentation : string
    }.

(** ** Errors

    [ErrMissingTableOf] is the package's sentinel; [Wrapped] is what
    [errors.Wrap] and [errors.Wrapf] build; [SinkError] stands for
    whatever a failing destination returns. *)
Inductive error : Type :=
| ErrMissingTableOf
| Wrapped (cause : error) (msg : string)
| SinkError (msg : string).

(** [errors.Cause]. *)
Fixpoint Cause (e : error) : error :=
  match e with
  | Wrapped c _ => Cause c
  | _ => e
  end.

(** [errors.Cause(err) == ErrMissingTableOf]. *)
Definition isMissingTableOf (e : error) : bool :=
  match Cause e with
  | ErrMissingTableOf => true
  | _ => false
  end.

(** ** The rest of package [oracall], as [proto.go] sees it

    The three package-level variables, and the declarations of the
    package that live in other files: [CamelCase], [replHidden],
    [Argument.goType], [Function.HasCursorOut], the way an [Argument]
    prints under [%s] and [%v], and the direction bits. *)
Record Package : Type :=
  mkPackage {
      SkipMissingTableOf : bool;
      Gogo : bool;
      NumberAsString : bool;
      CamelCase : string -> string;
      replHidden : string -> string;
      goType : Argument -> bool -> string;
      HasCursorOut : Function -> bool;
      Argument_s : Argument -> string;
      Argument_v : Argument -> string;
      DIR_IN : Z;
      DIR_OUT : Z
    }.

(** A value of a [protoOptions] map: [String] switches on [bool] and
    prints everything else with [%q]; [protoType] stores strings only. *)
Inductive optVal : Type :=
| VBool (b : bool)
| VString (s : string).

(** [type protoOptions map[string]interface{}]; nil is the empty map. *)
Abbreviation protoOptions := (gmap string optVal).

(** [io.Writer]: a destination with its own state.  [Write] returns the
    state after the call and the error of the call. *)
Record Writer : Type :=
  mkWriter {
      sink : Type;
      Write : sink -> string -> sink * option error
    }.

(** What a call of [protoWriteMessageTyp] leaves behind: the text it
    wrote to [dst], the registry [seen], and the error it returned. *)
Record emitted : Type :=
  mkEmitted {
      text : string;
      registry : gset string;
      failure : option error
    }.

(** The local state of the field loop of [protoWriteMessageTyp]: what
    went to [w], what went to the side buffer [buf], and [seen]. *)
Record frame : Type :=
  mkFrame {
      out : string;
      side : string;
      seen : gset string
    }.

(** ** The emitter *)

(** [mkRecTypName]. *)
Definition mkRecTypName (name : string) : string := ToLower name ++ "_rek_typ".

(** [dot2D.Replace], with [dot2D = strings.NewReplacer(".", "__")]. *)
Definition dot2D_Replace (s : string) : string := ReplaceByte "."%char "__" s.

(** The test of the first loop of [protoWriteMessageTyp]. *)
Definition missingTableOf (arg : Argument) : bool :=
  flavor_eqb (Flavor arg) FLAVOR_TABLE
  && match TableOf arg with None => true | Some _ => false end.

(** [arg.Name = replHidden(arg.Name)] on the loop's copy of [arg]. *)
Definition withName (arg : Argument) (n : string) : Argument :=
  mkArgument n (Direction arg) (Flavor arg) (AbsType arg) (TableOf arg) (RecordOf arg).

Section Emitter.

Context (P : Package).

(** The order in which [range] walks an options map.  Go leaves it
    unspecified; it is a parameter of the model. *)
Variable rangeOrder : protoOptions -> list (string * optVal).

(** [protoType]. *)
Definition protoType (got aName : string) : string * protoOptions :=
  let trimmed := ToLower (TrimPrefix (TrimPrefix got "[]") "*") in
  if String.eqb trimmed "time.time" then ("string", ∅)
  else if String.eqb trimmed "string" then ("string", ∅)
  else if String.eqb trimmed "int32" then
    if NumberAsString P
    then ("sint32", {[ "gogoproto.jsontag" := VString (aName ++ ",string,omitempty") ]})
    else ("sint32", ∅)
  else if String.eqb trimmed "float64" || String.eqb trimmed "sql.nullfloat64" then
    if NumberAsString P
    then ("double", {[ "gogoproto.jsontag" := VString (aName ++ ",string,omitempty") ]})
    else ("double", ∅)
  else if String.eqb trimmed "goracle.number" then
    ("string", {[ "gogoproto.jsontag" := VString (aName ++ ",omitempty") ]})
  else if String.eqb trimmed "custom.date" then ("string", ∅)
  else if String.eqb trimmed "n" then ("string", ∅)
  else if String.eqb trimmed "raw" || String.eqb trimmed "goracle.lob"
          || String.eqb trimmed "ora.lob" then ("bytes", ∅)
  else (trimmed, ∅).

(** One turn of the loop of [protoOptions.String]. *)
Definition writeOption (buf : string) (kv : string * optVal) : string :=
  let buf := if negb (String.length buf =? 1)%nat then buf ++ ", " else buf in
  let buf := buf ++ "(" ++ fst kv ++ ")=" in
  match snd kv with
  | VBool b => buf ++ (if b then "true" else "false")
  | VString v => buf ++ Quote v
  end.

(** [protoOptions.String]. *)
Definition protoOptions_String (opts : protoOptions) : string :=
  if (size opts =? 0)%nat then EmptyString
  else fold_left writeOption (rangeOrder opts) "[" ++ "]".

(** The text of the error of a missing [TableOf]. *)
Definition noTableOf (msgName : string) (arg : Argument) : error :=
  Wrapped ErrMissingTableOf
    ("no table of data for " ++ msgName ++ "." ++ Argument_s P arg
       ++ " (" ++ Argument_v P arg ++ ")").

(** The loop's copy of [arg] after the hidden marker is replaced. *)
Definition renamed (arg : Argument) : Argument :=
  if HasSuffix (Name arg) "#" then withName arg (replHidden P (Name arg)) else arg.

(** The qualifier [rule] and the descriptor [got] on which
    [protoType] is called, for the loop's copy of [arg]. *)
Definition normalize (arg : Argument) : string * string :=
  let rule := if flavor_eqb (Flavor arg) FLAVOR_TABLE then "repeated " else EmptyString in
  let got := TrimPrefix (goType P arg false) "*" in
  let '(rule, got) :=
    if HasPrefix got "[]" then ("repeated ", drop 2 got) else (rule, got) in
  let got := TrimPrefix got "*" in
  let got := if String.eqb got EmptyString then mkRecTypName (Name arg) else got in
  (rule, got).

(** The condition under which a field is written as a scalar. *)
Definition isScalar (arg : Argument) : bool :=
  flavor_eqb (Flavor arg) FLAVOR_SIMPLE
  || (flavor_eqb (Flavor arg) FLAVOR_TABLE
      && match TableOf arg with
         | Some t => flavor_eqb (Flavor t) FLAVOR_SIMPLE
         | None => false
         end).

(** [subArgs]. *)
Definition subArgs (arg : Argument) : list Argument :=
  match TableOf arg with
  | Some t =>
      match RecordOf t with
      | None => [t]
      | Some recs => map NA_Argument recs
      end
  | None =>
      match RecordOf arg with
      | None => []
      | Some recs => map NA_Argument recs
      end
  end.

(** The field line both [Fprintf] calls of the loop end with:
    [\t%s%s %s = %d%s;\n] over [rule], [typ], [aName], [i+1], [optS]. *)
Definition fieldLine (rule typ aName : string) (i : nat) (optS : string) : string :=
  tab ++ rule ++ typ ++ " " ++ aName ++ " = " ++ itoa (i + 1) ++ optS ++ ";" ++ nl.

(** [optS]: the rendered options behind a blank, or nothing. *)
Definition optionSuffix (pOpts : protoOptions) : string :=
  let s := protoOptions_String pOpts in
  if negb (String.eqb s EmptyString) then " " ++ s else EmptyString.

(** Modelled from the spec: [buffers] is the package's pool of byte
    buffers, declared in another file.  A buffer borrowed with
    [buffers.Get] holds nothing, and it is given back when the call
    returns; the pool saves allocations and has no other effect. *)
Definition buffers_Get : string := EmptyString.

(** The opening line of a message: [\nmessage %s {\n]. *)
Definition messageHeader (msgName : string) : string :=
  nl ++ "message " ++ msgName ++ " {" ++ nl.

Section Message.

(** The arguments of a message are read off a list of [A] by [proj];
    [nested x typ seen] is the recursive call for the fields of
    [proj x]. *)
Context {A : Type} (proj : A -> Argument).
Variable nested : A -> string -> gset string -> emitted.
Variable msgName : string.

(** One turn of the second loop, field number [i+1].  The error is
    the one the turn returns with, if it returns. *)
Definition field (i : nat) (x : A) (st : frame) : frame * option error :=
  let arg := renamed (proj x) in
  if missingTableOf arg then (st, Some (noTableOf msgName arg))
  else
    let aName := Name arg in
    let '(rule, got) := normalize arg in
    let '(typ, pOpts) := protoType got (Name arg) in
    let optS := optionSuffix pOpts in
    if isScalar arg then
      (mkFrame
         (out st ++ tab ++ "// " ++ AbsType arg ++ nl ++ fieldLine rule typ aName i optS)
         (side st) (seen st), None)
    else
      let typ := CamelCase P typ in
      let line := fieldLine rule typ aName i optS in
      if decide (typ ∈ seen st) then
        (mkFrame (out st ++ line) (side st) (seen st), None)
      else
        let r := nested x typ (seen st) in
        match failure r with
        | Some err => (mkFrame (out st) (side st ++ text r) (registry r), Some err)
        | None =>
            (mkFrame (out st ++ line) (side st ++ text r) ({[ typ ]} ∪ registry r),
              None)
        end.

(** The second loop, from index [i] on. *)
Fixpoint fields (l : list A) (i : nat) (st : frame) : frame * option error :=
  match l with
  | [] => (st, None)
  | x :: l' =>
      match field i x st with
      | (st', Some err) => (st', Some err)
      | (st', None) => fields l' (S i) st'
      end
  end.

(** The body of [protoWriteMessageTyp].  Its two callers pass a byte
    buffer as [dst] (the buffer of [Function.SaveProtobuf], or the side
    buffer of the enclosing message); the writes reach it through the
    package's [errWriter] and append to it, a [bytes.Buffer] never
    fails, and so the closing [return err] returns the error of the
    recursive call only.  [text] is what [dst] holds of this call when
    it returns, also when it returns early.  The calls of [Log] leave
    nothing in the result and are left out. *)
Definition writeMessage (seen0 : gset string) (l : list A) : emitted :=
  match find missingTableOf (map proj l) with
  | Some arg => mkEmitted EmptyString seen0 (Some (noTableOf msgName arg))
  | None =>
      let '(st, e) :=
        fields l 0 (mkFrame (messageHeader msgName) buffers_Get seen0) in
      match e with
      | Some err => mkEmitted (out st) (seen st) (Some err)
      | None => mkEmitted (out st ++ "}" ++ nl ++ side st) (seen st) None
      end
  end.

End Message.

(** The recursive call of [protoWriteMessageTyp] for the fields of
    [arg]: the message [typ] over [subArgs arg]. *)
Fixpoint nestedMessage (arg : Argument) (typ : string) (seen0 : gset string)
  {struct arg} : emitted :=
  match TableOf arg with
  | Some t =>
      match RecordOf t with
      | None => writeMessage (fun a => a) nestedMessage typ seen0 [t]
      | Some recs =>
          writeMessage NA_Argument (fun v => nestedMessage (NA_Argument v)) typ seen0 recs
      end
  | None =>
      match RecordOf arg with
      | None => writeMessage (fun a => a) nestedMessage typ seen0 []
      | Some recs =>
          writeMessage NA_Argument (fun v => nestedMessage (NA_Argument v)) typ seen0 recs
      end
  end.

(** [protoWriteMessageTyp], with [dst] a buffer. *)
Definition protoWriteMessageTyp (msgName : string) (seen0 : gset string)
  (args : list Argument) : emitted :=
  writeMessage (fun a => a) nestedMessage msgName seen0 args.

(** The arguments [Function.saveProtobufDir] selects.  [Direction]
    and the direction bits are [uint8] values. *)
Definition dirmapOf (out : bool) : Z := if out then DIR_OUT P else DIR_IN P.
Definition dirnameOf (out : bool) : string := if out then "output" else "input".

Definition selectArgs (f : Function) (out : bool) : list Argument :=
  let args :=
    fold_left
      (fun args arg =>
         if (0 <? Z.land (Direction arg) (dirmapOf out))%Z then (args ++ [arg])%list else args)
      (Args f) [] in
  if out then
    match Returns f with
    | Some r => (args ++ [r])%list
    | None => args
    end
  else args.

(** The message name of one direction. *)
Definition messageName (f : Function) (out : bool) : string :=
  CamelCase P (dot2D_Replace (ToLower (name f)) ++ "__" ++ dirnameOf out).

(** [Function.saveProtobufDir], with [dst] a buffer. *)
Definition saveProtobufDir (f : Function) (seen0 : gset string) (out : bool) : emitted :=
  protoWriteMessageTyp (messageName f out) seen0 (selectArgs f out).

(** Modelled from the spec: [Function.getStructName] is declared in
    another file of the package.  The service emitter takes its
    message names from it, and they are derived as the message names
    of the schema emitter are: the function name lower-cased, dots
    replaced by a double underscore, and the direction suffix. *)
Definition getStructName (f : Function) (out withPackage : bool) : string :=
  dot2D_Replace (ToLower (name f)) ++ "__" ++ dirnameOf out.

(** The entry [SaveProtobuf] appends to [services] for [f]. *)
Definition rpcLine (f : Function) : string :=
  let fName := ToLower (name f) in
  let streamQual := if HasCursorOut P f then "stream " else EmptyString in
  let name := CamelCase P (dot2D_Replace fName) in
  let comment :=
    if negb (String.eqb (Documentation f) EmptyString)
    then nl ++ "/// " ++ ReplaceByte "010"%char (nl ++ "/// ") (Documentation f) ++ nl ++ tab
    else EmptyString in
  comment ++ "rpc " ++ name ++ " (" ++ CamelCase P (getStructName f false false)
    ++ ") returns (" ++ streamQual ++ CamelCase P (getStructName f true false) ++ ") {}".

Section Destination.

(** The destination: in [SaveProtobuf] it is [dst] behind the
    package's [errWriter]. *)
Context (dst : Writer).

(** What one function leaves behind in [SaveProtobuf]. *)
Record run : Type :=
  mkRun {
      dest : sink dst;
      names : gset string;
      services : list string
    }.

(** [Function.SaveProtobuf]: the destination after the call, the
    registry after the call, and the error returned. *)
Definition Function_SaveProtobuf (f : Function) (w : sink dst) (seen0 : gset string)
  : sink dst * gset string * option error :=
  let r1 := saveProtobufDir f seen0 false in
  match failure r1 with
  | Some err => (w, registry r1, Some (Wrapped err "input"))
  | None =>
      let r2 := saveProtobufDir f (registry r1) true in
      match failure r2 with
      | Some err => (w, registry r2, Some (Wrapped err "output"))
      | None =>
          let '(w', e) := Write dst w (text r1 ++ text r2) in
          (w', registry r2, e)
      end
  end.

(** The loop [FunLoop] of [SaveProtobuf]. *)
Fixpoint FunLoop (functions : list Function) (st : run) : run * option error :=
  match functions with
  | [] => (st, None)
  | f :: rest =>
      let '(w, seen1, e) := Function_SaveProtobuf f (dest st) (names st) in
      match e with
      | Some err =>
          if SkipMissingTableOf P && isMissingTableOf err
          then FunLoop rest (mkRun w seen1 (services st))
          else (mkRun w seen1 (services st), Some err)
      | None => FunLoop rest (mkRun w seen1 (services st ++ [rpcLine f])%list)
      end
  end.

(** The header [SaveProtobuf] writes before the loop. *)
Definition writeHeader (w : sink dst) (pkg : string) : sink dst :=
  let w := fst (Write dst w ("syntax = " ++ dq ++ "proto3" ++ dq ++ ";" ++ nl ++ nl)) in
  let w :=
    if negb (String.eqb pkg EmptyString)
    then fst (Write dst w ("package " ++ pkg ++ ";" ++ nl))
    else w in
  if Gogo P
  then fst (Write dst w
              (nl ++ tab ++ "import " ++ dq
                 ++ "github.com/gogo/protobuf/gogoproto/gogo.proto" ++ dq ++ ";" ++ nl))
  else w.

(** The service block [SaveProtobuf] writes after the loop. *)
Definition writeService (w : sink dst) (pkg : string) (svcs : list string) : sink dst :=
  let w := fst (Write dst w (nl ++ "service " ++ CamelCase P pkg ++ " {" ++ nl)) in
  let w := fold_left (fun w s => fst (Write dst w (tab ++ s ++ nl))) svcs w in
  fst (Write dst w "}").

(** [SaveProtobuf]: the destination after the call and the error
    returned.  The errors of the header and of the service block
    stay in the [errWriter]; the function returns [nil] after the
    service block. *)
Definition SaveProtobuf (w : sink dst) (functions : list Function) (pkg : string)
  : sink dst * option error :=
  let w := writeHeader w pkg in
  match FunLoop functions (mkRun w ∅ []) with
  | (st, Some err) => (dest st, Some err)
  | (st, None) => (writeService (dest st) pkg (services st), None)
  end.

End Destination.

End Emitter.

Arguments mkRun {dst}.
Arguments dest {dst}.
Arguments names {dst}.
Arguments services {dst}.

(** ** Destinations and a package to run the emitter on *)

(** A destination that keeps what is written and never fails, as a
    [bytes.Buffer] does. *)
Definition bufferWriter : Writer :=
  mkWriter string (fun w p => (w ++ p, None)).

(** A destination on which every [Write] fails. *)
Definition brokenWriter : Writer :=
  mkWriter unit (fun w _ => (w, Some (SinkError "write failed"))).

(** A destination that takes [n] writes and fails from then on, like a
    file on a device that fills up.  Its state is the number of writes
    it can still take and the text it holds. *)
Definition fillingWriter : Writer :=
  mkWriter (nat * string)
    (fun w p =>
       match fst w with
       | O => (w, Some (SinkError "no space left on device"))
       | S n => ((n, snd w ++ p), None)
       end).

(** Walking an options map in the order of [map_to_list]. *)
Definition listOrder : protoOptions -> list (string * optVal) := map_to_list.

Module Demo.

(** A stand-in for [CamelCase]: the first byte is upper-cased, an
    underscore is dropped and upper-cases the byte after it. *)
Definition upper_byte (c : ascii) : ascii :=
  let n := nat_of_ascii c in
  if ((97 <=? n) && (n <=? 122))%nat then ascii_of_nat (n - 32) else c.

Fixpoint camel (up : bool) (s : string) : string :=
  match s with
  | EmptyString => EmptyString
  | String c s' =>
      if Ascii.eqb c "_"%char then camel true s'
      else String (if up then upper_byte c else c) (camel false s')
  end.

(** A stand-in for [replHidden]: the trailing marker becomes an
    underscore. *)
Fixpoint hidden (s : string) : string :=
  match s with
  | EmptyString => EmptyString
  | String c EmptyString => if Ascii.eqb c "#"%char then "_" else s
  | String c s' => String c (hidden s')
  end.

(** A stand-in for [Argument.goType]: a record or a table of records
    is named after its native type; scalars are read off the native
    type label. *)
Definition scalarType (abs : string) : string :=
  if String.eqb abs "BINARY_DOUBLE" then "float64"
  else if String.eqb abs "PLS_INTEGER" then "int32"
  else if String.eqb abs "VARCHAR2" then "string"
  else if String.eqb abs "NUMBER" then "goracle.Number"
  else abs.

Definition typeOf (arg : Argument) (isTable : bool) : string :=
  match Flavor arg with
  | FLAVOR_SIMPLE => scalarType (AbsType arg)
  | FLAVOR_RECORD => "*" ++ AbsType arg
  | FLAVOR_TABLE =>
      match TableOf arg with
      | Some t =>
          "[]" ++ match Flavor t with
                  | FLAVOR_SIMPLE => scalarType (AbsType t)
                  | _ => "*" ++ AbsType t
                  end
      | None => "[]"
      end
  end.

Definition pkg (skip gogo numberAsString : bool) : Package :=
  mkPackage skip gogo numberAsString (camel true) hidden typeOf
    (fun _ => false) Name Name 1%Z 2%Z.

Definition scalar (n abs : string) (dir : Z) : Argument :=
  mkArgument n dir FLAVOR_SIMPLE abs None None.

Definition record (n abs : string) (dir : Z) (fs : list NamedArgument) : Argument :=
  mkArgument n dir FLAVOR_RECORD abs None (Some fs).

Definition table (n abs : string) (dir : Z) (elem : option Argument) : Argument :=
  mkArgument n dir FLAVOR_TABLE abs elem None.

Definition fld (a : Argument) : NamedArgument := mkNamedArgument (Name a) a.

(** The function of the end-to-end example: [get_emp] with [p_id]
    (in) and the record [p_emp] (out). *)
Definition get_emp : Function :=
  mkFunction "get_emp"
    [ scalar "p_id" "PLS_INTEGER" 1;
      record "p_emp" "emp_rec" 2
        [ fld (scalar "name" "VARCHAR2" 2); fld (scalar "salary" "BINARY_DOUBLE" 2) ] ]
    None EmptyString.

End Demo.

(** Names the qualifier, the descriptor, the wire type and the options
    of the turn of the field loop that the goal is about. *)
Ltac split_turn :=
  match goal with
  | |- context [normalize ?P ?a] =>
      let rule := fresh "rule" in
      let got := fresh "got" in
      destruct (normalize P a) as [rule got];
      match goal with
      | |- context [protoType P got ?n] =>
          let typ := fresh "typ" in
          let pOpts := fresh "pOpts" in
          destruct (protoType P got n) as [typ pOpts]
      end
  end.

(** ** Induction on argument trees *)

Section ArgumentInduction.

Variable Q : Argument -> Prop.

Hypothesis step :
  forall n d f ab t r,
    match t with Some t' => Q t' | None => True end ->
    match r with
    | Some recs => Forall (fun v => Q (NA_Argument v)) recs
    | None => True
    end ->
    Q (mkArgument n d f ab t r).

Fixpoint Argument_tree_ind (a : Argument) : Q a :=
  match a with
  | mkArgument n d f ab t r =>
      step n d f ab t r
        (match t return match t with Some t' => Q t' | None => True end with
         | Some t' => Argument_tree_ind t'
         | None => I
         end)
        (match r return match r with
                        | Some recs => Forall (fun v => Q (NA_Argument v)) recs
                        | None => True
                        end with
         | Some recs =>
             (fix all (l : list NamedArgument) : Forall (fun v => Q (NA_Argument v)) l :=
                match l with
                | [] => List.Forall_nil _
                | v :: l' =>
                    List.Forall_cons _ _ _
                      (match v return Q (NA_Argument v) with
                       | mkNamedArgument _ a' => Argument_tree_ind a'
                       end)
                      (all l')
                end) recs
         | None => I
         end)
  end.

End ArgumentInduction.

(** Induction along the recursive calls of [protoWriteMessageTyp]:
    a property holds of every argument once it holds of an argument
    whenever it holds of its [subArgs]. *)
Lemma subArgs_ind (Q : Argument -> Prop) :
  (forall a, Forall Q (subArgs a) -> Q a) -> forall a, Q a.
Proof.
  intros H a.
  enough (Hboth : Q a /\ match RecordOf a with
                         | Some recs => Forall (fun v => Q (NA_Argument v)) recs
                         | None => True
                         end) by exact (proj1 Hboth).
  induction a as [n d f ab t r Ht Hr] using Argument_tree_ind.
  assert (Hrecs : match r with
                  | Some recs => Forall (fun v => Q (NA_Argument v)) recs
                  | None => True
                  end).
  { destruct r as [recs|]; [|exact I].
    eapply List.Forall_impl; [|exact Hr]. intros v Hv. exact (proj1 Hv). }
  split; [|exact Hrecs].
  apply H. unfold subArgs; simpl.
  destruct t as [t'|].
  - destruct Ht as [Qt Hsub].
    destruct (RecordOf t') as [recs|].
    + apply Forall_map. exact Hsub.
    + repeat constructor. exact Qt.
  - destruct r as [recs|].
    + apply Forall_map. exact Hrecs.
    + constructor.
Qed.

(** ** The shape of [protoWriteMessageTyp] *)

(** Two walks of the options maps render alike when they give the same
    text on every map [protoType] returns. *)
Definition sameRendering (P : Package) (r1 r2 : protoOptions -> list (string * optVal)) : Prop :=
  forall got aName,
    protoOptions_String r1 (snd (protoType P got aName))
    = protoOptions_String r2 (snd (protoType P got aName)).

Lemma sameRendering_refl P r : sameRendering P r r.
Proof. intros got aName. reflexivity. Qed.

Section Congruence.

Context (P : Package) (r1 r2 : protoOptions -> list (string * optVal)).
Context {A B : Type} (projA : A -> Argument) (projB : B -> Argument).
Context (nestedA : A -> string -> gset string -> emitted).
Context (nestedB : B -> string -> gset string -> emitted).
Hypothesis Hrender : sameRendering P r1 r2.

(** Two list elements stand for the same argument with the same
    recursive call. *)
Definition sameField (x : A) (y : B) : Prop :=
  projA x = projB y /\ forall typ s, nestedA x typ s = nestedB y typ s.

Lemma field_congr msgName i x y st :
  sameField x y ->
  field P r1 projA nestedA msgName i x st = field P r2 projB nestedB msgName i y st.
Proof.
  intros [Hproj Hnested]. unfold field. rewrite Hproj.
  destruct (missingTableOf (renamed P (projB y))); [reflexivity|].
  destruct (normalize P (renamed P (projB y))) as [rule got].
  unfold optionSuffix.
  pose proof (Hrender got (Name (renamed P (projB y)))) as Hr.
  destruct (protoType P got (Name (renamed P (projB y)))) as [typ pOpts].
  simpl in Hr. rewrite Hr, Hnested. reflexivity.
Qed.

Lemma fields_congr msgName l1 l2 :
  Forall2 sameField l1 l2 ->
  forall i st,
    fields P r1 projA nestedA msgName l1 i st = fields P r2 projB nestedB msgName l2 i st.
Proof.
  induction 1 as [|x y l1 l2 Hxy _ IH]; intros i st; simpl; [reflexivity|].
  rewrite (field_congr msgName i x y st Hxy).
  destruct (field P r2 projB nestedB msgName i y st) as [st' [err|]]; [reflexivity|].
  apply IH.
Qed.

Lemma writeMessage_congr msgName s l1 l2 :
  Forall2 sameField l1 l2 ->
  writeMessage P r1 projA nestedA msgName s l1 = writeMessage P r2 projB nestedB msgName s l2.
Proof.
  intros H. unfold writeMessage.
  assert (Hmap : map projA l1 = map projB l2).
  { clear -H. induction H as [|x y l1 l2 [Hxy _] _ IH]; simpl; congruence. }
  rewrite Hmap, (fields_congr msgName l1 l2 H). reflexivity.
Qed.

End Congruence.

Section Shape.

Context (P : Package) (rangeOrder : protoOptions -> list (string * optVal)).

(** The recursive call is [protoWriteMessageTyp(buf, typ, seen, subArgs...)]. *)
Lemma nestedMessage_eq arg typ s :
  nestedMessage P rangeOrder arg typ s
  = protoWriteMessageTyp P rangeOrder typ s (subArgs arg).
Proof.
  assert (Hrecs : forall recs : list NamedArgument,
             writeMessage P rangeOrder NA_Argument
               (fun v => nestedMessage P rangeOrder (NA_Argument v)) typ s recs
             = protoWriteMessageTyp P rangeOrder typ s (map NA_Argument recs)).
  { intros recs. unfold protoWriteMessageTyp.
    apply writeMessage_congr; [apply sameRendering_refl|].
    induction recs as [|v recs IH]; simpl; constructor; [|exact IH].
    split; reflexivity. }
  destruct arg as [n d f ab t r]. unfold subArgs; simpl.
  destruct t as [t'|].
  - destruct (RecordOf t') as [recs|]; [apply Hrecs | reflexivity].
  - destruct r as [recs|]; [apply Hrecs | reflexivity].
Qed.

(** [protoWriteMessageTyp] as the source has it: the message over
    [args], each composite field calling [protoWriteMessageTyp] again
    on its [subArgs]. *)
Lemma protoWriteMessageTyp_unfold msgName s args :
  protoWriteMessageTyp P rangeOrder msgName s args
  = writeMessage P rangeOrder (fun a => a)
      (fun a typ s' => protoWriteMessageTyp P rangeOrder typ s' (subArgs a))
      msgName s args.
Proof.
  unfold protoWriteMessageTyp at 1.
  apply writeMessage_congr; [apply sameRendering_refl|].
  induction args as [|a args IH]; constructor; [|exact IH].
  split; [reflexivity|]. intros typ s'. apply nestedMessage_eq.
Qed.

End Shape.

(** ** The type mapper and the rendering of options *)

(** A walk of the options maps is valid when it visits every entry of
    a map once: it is a permutation of the entries. *)
Definition validOrder (r : protoOptions -> list (string * optVal)) : Prop :=
  forall m, r m ≡ₚ map_to_list m.

Lemma listOrder_valid : validOrder listOrder.
Proof. intros m. reflexivity. Qed.

(** Walking the entries backwards is valid as well, and differs from
    [listOrder] on maps of two keys. *)
Definition reverseOrder : protoOptions -> list (string * optVal) :=
  fun m => reverse (map_to_list m).

Lemma reverseOrder_valid : validOrder reverseOrder.
Proof. intros m. apply reverse_Permutation. Qed.

(** The options [protoType] returns: none, or the one key
    [gogoproto.jsontag] with a string. *)
Lemma protoType_options P got aName :
  snd (protoType P got aName) = ∅
  \/ exists v, snd (protoType P got aName) = {[ "gogoproto.jsontag" := VString v ]}.
Proof.
  unfold protoType.
  repeat match goal with
         | |- context [if ?b then _ else _] => destruct b
         end; simpl; eauto.
Qed.

Lemma protoType_size P got aName : size (snd (protoType P got aName)) <= 1.
Proof.
  destruct (protoType_options P got aName) as [E | [v E]]; rewrite E.
  - rewrite map_size_empty. lia.
  - rewrite map_size_singleton. lia.
Qed.

(** The empty map renders as nothing, whatever the walk. *)
Lemma protoOptions_String_empty r : protoOptions_String r ∅ = EmptyString.
Proof. unfold protoOptions_String. rewrite map_size_empty. reflexivity. Qed.

(** A map of one key renders as that one entry in brackets. *)
Lemma protoOptions_String_singleton r k v :
  validOrder r ->
  protoOptions_String r {[ k := v ]} = writeOption "[" (k, v) ++ "]".
Proof.
  intros Hr. unfold protoOptions_String. rewrite map_size_singleton. simpl.
  pose proof (Hr {[ k := v ]}) as Hp.
  rewrite map_to_list_singleton in Hp.
  apply Permutation_singleton_r in Hp. rewrite Hp. reflexivity.
Qed.

Lemma validOrder_sameRendering P r1 r2 :
  validOrder r1 -> validOrder r2 -> sameRendering P r1 r2.
Proof.
  intros H1 H2 got aName.
  destruct (protoType_options P got aName) as [E | [v E]]; rewrite E.
  - rewrite !protoOptions_String_empty. reflexivity.
  - rewrite !protoOptions_String_singleton by assumption. reflexivity.
Qed.

(** ** The emitted text does not depend on the walk of the options *)

Section OrderIrrelevant.

Context (P : Package) (r1 r2 : protoOptions -> list (string * optVal)).
Hypothesis Hrender : sameRendering P r1 r2.

Lemma protoWriteMessageTyp_order args :
  forall msgName s,
    protoWriteMessageTyp P r1 msgName s args = protoWriteMessageTyp P r2 msgName s args.
Proof.
  assert (Hnested : forall a typ s,
             nestedMessage P r1 a typ s = nestedMessage P r2 a typ s).
  { intros a. induction a as [a IH] using subArgs_ind. intros typ s.
    rewrite !nestedMessage_eq. unfold protoWriteMessageTyp.
    apply writeMessage_congr; [exact Hrender|].
    induction IH as [|b bs Hb _ IHbs]; constructor; [|exact IHbs].
    split; [reflexivity | exact Hb]. }
  intros msgName s. unfold protoWriteMessageTyp.
  apply writeMessage_congr; [exact Hrender|].
  induction args as [|a args IH]; constructor; [|exact IH].
  split; [reflexivity | apply Hnested].
Qed.

Lemma saveProtobufDir_order f s o :
  saveProtobufDir P r1 f s o = saveProtobufDir P r2 f s o.
Proof. unfold saveProtobufDir. apply protoWriteMessageTyp_order. Qed.

Lemma Function_SaveProtobuf_order dst f w s :
  Function_SaveProtobuf P r1 dst f w s = Function_SaveProtobuf P r2 dst f w s.
Proof.
  unfold Function_SaveProtobuf. rewrite saveProtobufDir_order.
  destruct (failure (saveProtobufDir P r2 f s false)); [reflexivity|].
  rewrite saveProtobufDir_order. reflexivity.
Qed.

Lemma FunLoop_order dst functions :
  forall st, FunLoop P r1 dst functions st = FunLoop P r2 dst functions st.
Proof.
  induction functions as [|f rest IH]; intros st; simpl; [reflexivity|].
  rewrite Function_SaveProtobuf_order.
  destruct (Function_SaveProtobuf P r2 dst f (dest st) (names st)) as [[w s] [err|]].
  - destruct (SkipMissingTableOf P && isMissingTableOf err); [apply IH | reflexivity].
  - apply IH.
Qed.

End OrderIrrelevant.

(** C10: every options map of the type mapper has at most one key, so
    its rendering does not depend on the order in which the map is
    walked, and two runs of [SaveProtobuf] on the same functions,
    package name, flags and destination give the same output and the
    same error, whatever (valid) order each run walks the maps in. *)
Theorem C10_SaveProtobuf_deterministic
  (P : Package) (r1 r2 : protoOptions -> list (string * optVal))
  (dst : Writer) (w : sink dst) (functions : list Function) (pkg : string) :
  validOrder r1 -> validOrder r2 ->
  (forall got aName, size (snd (protoType P got aName)) <= 1)
  /\ (forall got aName,
        protoOptions_String r1 (snd (protoType P got aName))
        = protoOptions_String r2 (snd (protoType P got aName)))
  /\ SaveProtobuf P r1 dst w functions pkg = SaveProtobuf P r2 dst w functions pkg.
Proof.
  intros H1 H2.
  pose proof (validOrder_sameRendering P r1 r2 H1 H2) as Hrender.
  split; [apply protoType_size|]. split; [exact Hrender|].
  unfold SaveProtobuf.
  rewrite (FunLoop_order P r1 r2 Hrender). reflexivity.
Qed.

(** ** Field lines *)

(** C7, as amended: for an argument named [amount] whose Go type is
    [float64], the field line is [double amount = N] followed, when
    [NumberAsString] is set, by the option block
    [[(gogoproto.jsontag)=...]] whose value [amount,string,omitempty]
    stands between double quotes, and by nothing when the flag is off;
    an empty options map renders as the empty string. *)
Theorem C7_float64_field_line
  (P : Package) (r : protoOptions -> list (string * optVal))
  {A : Type} (proj : A -> Argument) (nested : A -> string -> gset string -> emitted)
  (msgName : string) (i : nat) (x : A) (st : frame) :
  validOrder r ->
  Name (proj x) = "amount" ->
  Flavor (proj x) = FLAVOR_SIMPLE ->
  goType P (proj x) false = "float64" ->
  field P r proj nested msgName i x st
  = (mkFrame
       (out st ++ tab ++ "// " ++ AbsType (proj x) ++ nl
          ++ tab ++ "double amount = " ++ itoa (i + 1)
          ++ (if NumberAsString P
              then " [(gogoproto.jsontag)=" ++ dq ++ "amount,string,omitempty" ++ dq ++ "]"
              else EmptyString)
          ++ ";" ++ nl)
       (side st) (seen st), None)
  /\ protoOptions_String r ∅ = EmptyString.
Proof.
  intros Hr Hn Hf Hg. split; [|apply protoOptions_String_empty].
  unfold field, renamed. rewrite Hn. simpl.
  unfold missingTableOf, normalize, isScalar. rewrite Hf, Hg, Hn. simpl.
  unfold protoType. simpl.
  destruct (NumberAsString P); simpl; [|reflexivity].
  unfold optionSuffix. rewrite protoOptions_String_singleton by exact Hr.
  reflexivity.
Qed.

(** The argument [amount] of the examples, the second field of a
    message. *)
Definition amountField (numberAsString : bool) : frame * option error :=
  field (Demo.pkg true false numberAsString) listOrder (fun a => a)
    (fun _ _ s => mkEmitted EmptyString s None) "M" 1
    (Demo.scalar "amount" "BINARY_DOUBLE" 1) (mkFrame EmptyString EmptyString ∅).

Lemma C7_float64_field_line_witness :
  amountField true
  = (mkFrame
       (tab ++ "// BINARY_DOUBLE" ++ nl ++ tab
          ++ "double amount = 2 [(gogoproto.jsontag)="
          ++ dq ++ "amount,string,omitempty" ++ dq ++ "];" ++ nl)
       EmptyString ∅, None)
  /\ protoOptions_String listOrder ∅ = EmptyString.
Proof.
  exact (C7_float64_field_line (Demo.pkg true false true) listOrder (fun a => a)
           (fun _ _ s => mkEmitted EmptyString s None) "M" 1
           (Demo.scalar "amount" "BINARY_DOUBLE" 1) (mkFrame EmptyString EmptyString ∅)
           listOrder_valid eq_refl eq_refl eq_refl).
Defined.

(** With the flag on, the line written for [amount] is not the line
    with the bare value [amount,string,omitempty]: that text occurs
    nowhere in it. *)
Lemma C7_bare_value_not_emitted :
  out (fst (amountField true))
  <> tab ++ "// BINARY_DOUBLE" ++ nl ++ tab
       ++ "double amount = 2 [(gogoproto.jsontag)=amount,string,omitempty];" ++ nl
  /\ Contains (out (fst (amountField true))) "=amount,string,omitempty]" = false.
Proof.
  split.
  - apply String.eqb_neq. vm_compute. reflexivity.
  - vm_compute. reflexivity.
Qed.

(** C5: a field whose argument is a plain scalar, or a table of plain
    scalars, is written as its doc comment [// AbsType] and one field
    line; a table has the qualifier [repeated]; the side buffer and the
    registry are left as they were, and the recursive call plays no
    part in the result. *)
Theorem C5_scalar_field
  (P : Package) (r : protoOptions -> list (string * optVal))
  {A : Type} (proj : A -> Argument) (nested : A -> string -> gset string -> emitted)
  (msgName : string) (i : nat) (x : A) (st : frame) :
  Flavor (proj x) = FLAVOR_SIMPLE
  \/ (Flavor (proj x) = FLAVOR_TABLE
      /\ exists t, TableOf (proj x) = Some t /\ Flavor t = FLAVOR_SIMPLE) ->
  let arg := renamed P (proj x) in
  let rule := fst (normalize P arg) in
  let mapped := protoType P (snd (normalize P arg)) (Name arg) in
  field P r proj nested msgName i x st
  = (mkFrame
       (out st ++ tab ++ "// " ++ AbsType (proj x) ++ nl
          ++ tab ++ rule ++ fst mapped ++ " " ++ Name arg ++ " = " ++ itoa (i + 1)
          ++ optionSuffix r (snd mapped) ++ ";" ++ nl)
       (side st) (seen st), None)
  /\ (Flavor (proj x) = FLAVOR_TABLE -> rule = "repeated ").
Proof.
  intros H arg rule mapped.
  assert (Hflavor : Flavor arg = Flavor (proj x))
    by (unfold arg, renamed; destruct (HasSuffix _ _); reflexivity).
  assert (Htable : TableOf arg = TableOf (proj x))
    by (unfold arg, renamed; destruct (HasSuffix _ _); reflexivity).
  assert (Habs : AbsType arg = AbsType (proj x))
    by (unfold arg, renamed; destruct (HasSuffix _ _); reflexivity).
  assert (Hscalar : isScalar arg = true).
  { unfold isScalar. rewrite Hflavor, Htable.
    destruct H as [-> | [-> [t [-> ->]]]]; reflexivity. }
  assert (Hpresent : missingTableOf arg = false).
  { unfold missingTableOf. rewrite Hflavor, Htable.
    destruct H as [-> | [-> [t [-> _]]]]; reflexivity. }
  split.
  - unfold field. fold arg. rewrite Hpresent.
    unfold rule, mapped.
    destruct (normalize P arg) as [rule' got]. simpl.
    destruct (protoType P got (Name arg)) as [typ pOpts]. simpl.
    rewrite Hscalar, Habs. reflexivity.
  - intros Ht. unfold rule, normalize. rewrite Hflavor, Ht. simpl.
    destruct (HasPrefix _ _); reflexivity.
Qed.

Lemma C5_scalar_field_witness :
  field (Demo.pkg true false false) listOrder (fun a => a)
    (fun _ _ s => mkEmitted "never called" s (Some ErrMissingTableOf)) "M" 0
    (Demo.table "tags#" "TAG_TAB" 1 (Some (Demo.scalar "tag" "VARCHAR2" 1)))
    (mkFrame "head;" "side;" {[ "Seen" ]})
  = (mkFrame ("head;" ++ tab ++ "// TAG_TAB" ++ nl ++ tab ++ "repeated string tags_ = 1;" ++ nl)
       "side;" {[ "Seen" ]}, None).
Proof.
  exact (proj1 (C5_scalar_field (Demo.pkg true false false) listOrder (fun a => a)
                  (fun _ _ s => mkEmitted "never called" s (Some ErrMissingTableOf)) "M" 0
                  (Demo.table "tags#" "TAG_TAB" 1 (Some (Demo.scalar "tag" "VARCHAR2" 1)))
                  (mkFrame "head;" "side;" {[ "Seen" ]})
                  (or_intror (conj eq_refl
                                (ex_intro _ (Demo.scalar "tag" "VARCHAR2" 1)
                                   (conj eq_refl eq_refl)))))).
Defined.

(** ** Selection and numbering of the fields *)

(** The test [arg.Direction&dirmap > 0]. *)
Definition selected (P : Package) (out : bool) (arg : Argument) : bool :=
  (0 <? Z.land (Direction arg) (dirmapOf P out))%Z.

(** Running the turns of a loop one after the other, until one of them
    returns. *)
Fixpoint runTurns (turns : list (frame -> frame * option error)) (st : frame)
  : frame * option error :=
  match turns with
  | [] => (st, None)
  | t :: ts =>
      match t st with
      | (st', Some err) => (st', Some err)
      | (st', None) => runTurns ts st'
      end
  end.

Lemma select_loop P out l :
  forall acc,
    fold_left
      (fun args arg =>
         if (0 <? Z.land (Direction arg) (dirmapOf P out))%Z then (args ++ [arg])%list else args)
      l acc
    = (acc ++ List.filter (selected P out) l)%list.
Proof.
  induction l as [|a l IH]; intros acc; simpl.
  - rewrite app_nil_r. reflexivity.
  - rewrite IH. unfold selected at 2.
    destruct (0 <? Z.land (Direction a) (dirmapOf P out))%Z; [|reflexivity].
    rewrite <- app_assoc. reflexivity.
Qed.

Lemma selectArgs_filter P f out :
  selectArgs P f out
  = (List.filter (selected P out) (Args f)
       ++ (if out then option_list (Returns f) else []))%list.
Proof.
  unfold selectArgs. rewrite select_loop. simpl.
  destruct out; [|rewrite app_nil_r; reflexivity].
  destruct (Returns f); simpl; [reflexivity | rewrite app_nil_r; reflexivity].
Qed.

Section Numbering.

Context (P : Package) (r : protoOptions -> list (string * optVal)).
Context {A : Type} (proj : A -> Argument).
Context (nested : A -> string -> gset string -> emitted) (msgName : string).

Lemma fields_turns l :
  forall i st,
    fields P r proj nested msgName l i st
    = runTurns
        (map (fun kx => field P r proj nested msgName (fst kx) (snd kx))
           (combine (seq i (length l)) l))
        st.
Proof.
  induction l as [|x l IH]; intros i st; simpl; [reflexivity|].
  destruct (field P r proj nested msgName i x st) as [st' [err|]]; [reflexivity|].
  apply IH.
Qed.

(** What a turn that does not return adds to the message: the doc
    comment of a scalar, and a field line with the number [k+1]. *)
Lemma field_line k x st st' :
  field P r proj nested msgName k x st = (st', None) ->
  let arg := renamed P (proj x) in
  let rule := fst (normalize P arg) in
  let mapped := protoType P (snd (normalize P arg)) (Name arg) in
  out st'
  = out st
      ++ (if isScalar arg
          then tab ++ "// " ++ AbsType arg ++ nl
                 ++ tab ++ rule ++ fst mapped ++ " " ++ Name arg ++ " = " ++ itoa (k + 1)
                 ++ optionSuffix r (snd mapped) ++ ";" ++ nl
          else tab ++ rule ++ CamelCase P (fst mapped) ++ " " ++ Name arg ++ " = "
                 ++ itoa (k + 1) ++ optionSuffix r (snd mapped) ++ ";" ++ nl).
Proof.
  intros H arg rule mapped. unfold field in H. fold arg in H.
  destruct (missingTableOf arg); [discriminate|].
  unfold rule, mapped.
  destruct (normalize P arg) as [rule' got]. simpl.
  destruct (protoType P got (Name arg)) as [typ pOpts]. simpl.
  destruct (isScalar arg).
  - injection H as <-. reflexivity.
  - destruct (decide (CamelCase P typ ∈ seen st)).
    + injection H as <-. reflexivity.
    + destruct (failure (nested x (CamelCase P typ) (seen st))); [discriminate|].
      injection H as <-. reflexivity.
Qed.

End Numbering.

(** C6: the arguments of a direction are those of [Args], in their
    order, whose [Direction] has the bit of the direction, followed for
    the output direction by [Returns] when there is one; the loop of a
    message handles the argument at position [k] (from 0) with the
    index [k], starting again at 0 in every message, and the field
    line of that argument carries the number [k+1]. *)
Theorem C6_selection_and_numbering
  (P : Package) (r : protoOptions -> list (string * optVal)) (f : Function) (o : bool) :
  selectArgs P f o
  = (List.filter (fun arg => (0 <? Z.land (Direction arg) (if o then DIR_OUT P else DIR_IN P))%Z)
       (Args f)
       ++ (if o then match Returns f with Some ret => [ret] | None => [] end else []))%list
  /\ (forall (s : gset string),
        let args := selectArgs P f o in
        let nested := fun a typ s' => protoWriteMessageTyp P r typ s' (subArgs a) in
        let turn := fun kx : nat * Argument =>
                      field P r (fun a => a) nested (messageName P f o) (fst kx) (snd kx) in
        find missingTableOf args = None ->
        saveProtobufDir P r f s o
        = let '(st, e) :=
            runTurns (map turn (combine (seq 0 (length args)) args))
              (mkFrame (messageHeader (messageName P f o)) buffers_Get s) in
          match e with
          | Some err => mkEmitted (out st) (seen st) (Some err)
          | None => mkEmitted (out st ++ "}" ++ nl ++ side st) (seen st) None
          end)
  /\ (forall {A : Type} (proj : A -> Argument) nested msgName (l : list A) st,
        fields P r proj nested msgName l 0 st
        = runTurns
            (map (fun kx => field P r proj nested msgName (fst kx) (snd kx))
               (combine (seq 0 (length l)) l))
            st)
  /\ (forall {A : Type} (proj : A -> Argument) nested msgName k (x : A) st st',
        field P r proj nested msgName k x st = (st', None) ->
        let arg := renamed P (proj x) in
        let rule := fst (normalize P arg) in
        let mapped := protoType P (snd (normalize P arg)) (Name arg) in
        out st'
        = out st
            ++ (if isScalar arg
                then tab ++ "// " ++ AbsType arg ++ nl
                       ++ tab ++ rule ++ fst mapped ++ " " ++ Name arg ++ " = " ++ itoa (k + 1)
                       ++ optionSuffix r (snd mapped) ++ ";" ++ nl
                else tab ++ rule ++ CamelCase P (fst mapped) ++ " " ++ Name arg ++ " = "
                       ++ itoa (k + 1) ++ optionSuffix r (snd mapped) ++ ";" ++ nl)).
Proof.
  split; [|split; [|split]].
  - rewrite selectArgs_filter. unfold selected, dirmapOf.
    destruct o; [destruct (Returns f)|]; reflexivity.
  - intros s args nested turn Hfind. unfold saveProtobufDir. fold args.
    rewrite protoWriteMessageTyp_unfold. unfold writeMessage.
    rewrite map_id, Hfind. rewrite fields_turns. reflexivity.
  - intros A proj nested msgName l st. apply fields_turns.
  - intros A proj nested msgName k x st st' H. exact (field_line P r proj nested msgName k x st st' H).
Qed.

(** ** Failures of the emitter *)

(** No table in the tree of [arg] lacks its [TableOf]. *)
Fixpoint complete (arg : Argument) : bool :=
  negb (missingTableOf arg)
  && match TableOf arg with
     | Some t => complete t
     | None => true
     end
  && match RecordOf arg with
     | Some recs => forallb (fun v => complete (NA_Argument v)) recs
     | None => true
     end.

Lemma complete_unfold arg :
  complete arg
  = negb (missingTableOf arg)
    && match TableOf arg with Some t => complete t | None => true end
    && match RecordOf arg with
       | Some recs => forallb (fun v => complete (NA_Argument v)) recs
       | None => true
       end.
Proof. destruct arg; reflexivity. Qed.

Lemma forallb_over_map {A B : Type} (f : B -> bool) (g : A -> B) (l : list A) :
  forallb f (map g l) = forallb (fun x => f (g x)) l.
Proof. induction l as [|x l IH]; simpl; [reflexivity | rewrite IH; reflexivity]. Qed.

Lemma complete_subArgs arg :
  complete arg = true -> forallb complete (subArgs arg) = true.
Proof.
  rewrite complete_unfold. intros H.
  apply andb_prop in H as [H Hr]. apply andb_prop in H as [_ Ht].
  unfold subArgs. destruct (TableOf arg) as [t|].
  - pose proof Ht as Hrecs. rewrite complete_unfold in Hrecs.
    apply andb_prop in Hrecs as [_ Hrecs].
    destruct (RecordOf t) as [recs|].
    + rewrite forallb_over_map. exact Hrecs.
    + cbn [forallb]. rewrite Ht. reflexivity.
  - destruct (RecordOf arg) as [recs|]; [|reflexivity].
    rewrite forallb_over_map. exact Hr.
Qed.

Lemma renamed_missingTableOf P arg :
  missingTableOf (renamed P arg) = missingTableOf arg.
Proof. unfold renamed. destruct (HasSuffix _ _); reflexivity. Qed.

(** An error of the emitter: the wrapped sentinel, with the text that
    names the message [m] and the argument [a], a table without
    [TableOf]. *)
Definition namesMissing (P : Package) (e : error) : Prop :=
  exists m a, e = noTableOf P m a /\ missingTableOf a = true.

Section Failures.

Context (P : Package) (r : protoOptions -> list (string * optVal)).

Section OneMessage.

Context {A : Type} (proj : A -> Argument).
Context (nested : A -> string -> gset string -> emitted) (msgName : string).

Lemma fields_ok l :
  Forall (fun x => missingTableOf (proj x) = false
                   /\ forall typ s, failure (nested x typ s) = None) l ->
  forall i st, snd (fields P r proj nested msgName l i st) = None.
Proof.
  induction 1 as [|x l [Hx Hn] _ IH]; intros i st; simpl; [reflexivity|].
  assert (Hfield : snd (field P r proj nested msgName i x st) = None).
  { unfold field. rewrite renamed_missingTableOf, Hx. split_turn.
    destruct (isScalar (renamed P (proj x))); [reflexivity|].
    destruct (decide (CamelCase P typ ∈ seen st)); [reflexivity|].
    rewrite Hn. reflexivity. }
  destruct (field P r proj nested msgName i x st) as [st' [err|]];
    [discriminate | apply IH].
Qed.

Lemma writeMessage_ok s l :
  Forall (fun x => missingTableOf (proj x) = false
                   /\ forall typ s', failure (nested x typ s') = None) l ->
  failure (writeMessage P r proj nested msgName s l) = None.
Proof.
  intros H. unfold writeMessage.
  assert (Hfind : find missingTableOf (map proj l) = None).
  { clear -H. induction H as [|x l [Hx _] _ IH]; simpl; [reflexivity|].
    rewrite Hx. exact IH. }
  rewrite Hfind.
  pose proof (fields_ok l H 0 (mkFrame (messageHeader msgName) buffers_Get s)) as Hf.
  destruct (fields P r proj nested msgName l 0 _) as [st [err|]];
    [discriminate | reflexivity].
Qed.

Lemma fields_failure l :
  Forall (fun x => forall typ s e, failure (nested x typ s) = Some e -> namesMissing P e) l ->
  forall i st st' e,
    fields P r proj nested msgName l i st = (st', Some e) -> namesMissing P e.
Proof.
  induction 1 as [|x l Hn _ IH]; intros i st st' e; simpl; [discriminate|].
  destruct (field P r proj nested msgName i x st) as [st1 [err|]] eqn:Hfield.
  - intros [= _ <-]. unfold field in Hfield.
    destruct (missingTableOf (renamed P (proj x))) eqn:Hm.
    + injection Hfield as _ <-. eexists _, _. split; [reflexivity | exact Hm].
    + destruct (normalize P (renamed P (proj x))) as [rule got].
      destruct (protoType P got (Name (renamed P (proj x)))) as [typ pOpts].
      destruct (isScalar (renamed P (proj x))); [discriminate|].
      destruct (decide (CamelCase P typ ∈ seen st)); [discriminate|].
      destruct (failure (nested x (CamelCase P typ) (seen st))) as [err'|] eqn:Hf;
        [|discriminate].
      injection Hfield as _ <-. exact (Hn _ _ _ Hf).
  - apply IH.
Qed.

Lemma writeMessage_failure s l e :
  Forall (fun x => forall typ s' e', failure (nested x typ s') = Some e' -> namesMissing P e') l ->
  failure (writeMessage P r proj nested msgName s l) = Some e -> namesMissing P e.
Proof.
  intros H. unfold writeMessage.
  destruct (find missingTableOf (map proj l)) as [a|] eqn:Hfind.
  - simpl. intros [= <-]. apply find_some in Hfind as [_ Hm].
    eexists _, _. split; [reflexivity | exact Hm].
  - destruct (fields P r proj nested msgName l 0 _) as [st [err|]] eqn:Hf.
    + simpl. intros [= <-]. exact (fields_failure l H _ _ _ _ Hf).
    + discriminate.
Qed.

End OneMessage.

(** On complete trees the emitter returns no error. *)
Lemma protoWriteMessageTyp_ok args :
  forallb complete args = true ->
  forall msgName s, failure (protoWriteMessageTyp P r msgName s args) = None.
Proof.
  assert (Hnested : forall a, complete a = true ->
                              forall typ s, failure (nestedMessage P r a typ s) = None).
  { intros a. induction a as [a IH] using subArgs_ind. intros Ha typ s.
    rewrite nestedMessage_eq. unfold protoWriteMessageTyp.
    apply writeMessage_ok.
    pose proof (complete_subArgs a Ha) as Hsub.
    induction IH as [|b bs Hb _ IHbs]; constructor.
    - simpl in Hsub. apply andb_prop in Hsub as [Hcb _]. split.
      + rewrite complete_unfold in Hcb.
        apply andb_prop in Hcb as [Hcb _]. apply andb_prop in Hcb as [Hcb _].
        destruct (missingTableOf b); [discriminate | reflexivity].
      + exact (Hb Hcb).
    - apply IHbs. simpl in Hsub. apply andb_prop in Hsub as [_ Hsub]. exact Hsub. }
  intros Hargs msgName s. unfold protoWriteMessageTyp. apply writeMessage_ok.
  induction args as [|a args IH]; constructor.
  - simpl in Hargs. apply andb_prop in Hargs as [Ha _]. split.
    + rewrite complete_unfold in Ha.
      apply andb_prop in Ha as [Ha _]. apply andb_prop in Ha as [Ha _].
      destruct (missingTableOf a); [discriminate | reflexivity].
    + exact (Hnested a Ha).
  - apply IH. simpl in Hargs. apply andb_prop in Hargs as [_ Hargs]. exact Hargs.
Qed.

(** Every error of the emitter is that of a table without [TableOf]. *)
Lemma protoWriteMessageTyp_failure args msgName s e :
  failure (protoWriteMessageTyp P r msgName s args) = Some e -> namesMissing P e.
Proof.
  assert (Hnested : forall a typ s' e',
             failure (nestedMessage P r a typ s') = Some e' -> namesMissing P e').
  { intros a. induction a as [a IH] using subArgs_ind. intros typ s' e'.
    rewrite nestedMessage_eq. unfold protoWriteMessageTyp.
    apply writeMessage_failure.
    induction IH as [|b bs Hb _ IHbs]; constructor; [exact Hb | exact IHbs]. }
  unfold protoWriteMessageTyp. apply writeMessage_failure.
  induction args as [|a args IH]; constructor; [apply Hnested | exact IH].
Qed.

End Failures.

Lemma namesMissing_cause P e : namesMissing P e -> Cause e = ErrMissingTableOf.
Proof. intros [m [a [-> _]]]. reflexivity. Qed.

(** The message name a composite argument is emitted under. *)
Definition typeName (P : Package) (arg : Argument) : string :=
  CamelCase P
    (fst (protoType P (snd (normalize P (renamed P arg))) (Name (renamed P arg)))).

Lemma renamed_isScalar P arg : isScalar (renamed P arg) = isScalar arg.
Proof. unfold renamed. destruct (HasSuffix _ _); reflexivity. Qed.

(** ** The message that owns a missing [TableOf] *)

(** [owns P msgName args m a]: [m] is the name of a message that the
    emission of the message [msgName] over [args] reaches (the message
    itself, or below a composite argument [b] the message
    [typeName P b] over [subArgs b]), and [a] is the first table
    without [TableOf] among the arguments of [m]. *)
Inductive owns (P : Package) : string -> list Argument -> string -> Argument -> Prop :=
| owns_here msgName args a :
    find missingTableOf args = Some a -> owns P msgName args msgName a
| owns_below msgName args b m a :
    In b args -> owns P (typeName P b) (subArgs b) m a -> owns P msgName args m a.

Lemma owns_missing P msgName args m a :
  owns P msgName args m a -> missingTableOf a = true.
Proof.
  induction 1 as [msgName args a Hfind | msgName args b m a _ _ IH]; [|exact IH].
  apply find_some in Hfind as [_ Hm]. exact Hm.
Qed.

Section Owner.

Context (P : Package) (r : protoOptions -> list (string * optVal)).

(** A turn of the field loop that returns an error found a table
    without [TableOf], or returns the error of the recursive call for
    the type name of its argument. *)
Lemma fields_error_source {A : Type} (proj : A -> Argument)
  (nested : A -> string -> gset string -> emitted) (msgName : string) (l : list A) :
  forall i st st' e,
    fields P r proj nested msgName l i st = (st', Some e) ->
    (exists x, In x l /\ missingTableOf (proj x) = true)
    \/ (exists x s, In x l /\ failure (nested x (typeName P (proj x)) s) = Some e).
Proof.
  induction l as [|y l IH]; intros i st st' e; simpl; [discriminate|].
  destruct (field P r proj nested msgName i y st) as [st1 [err|]] eqn:Hfield.
  - intros [= _ <-]. unfold field in Hfield.
    destruct (missingTableOf (renamed P (proj y))) eqn:Hm.
    + left. exists y. rewrite renamed_missingTableOf in Hm. split; [left; reflexivity | exact Hm].
    + right. exists y, (seen st). split; [left; reflexivity|].
      unfold typeName. revert Hfield.
      destruct (normalize P (renamed P (proj y))) as [rule got]. cbn [snd].
      destruct (protoType P got (Name (renamed P (proj y)))) as [typ pOpts]. cbn [fst].
      destruct (isScalar (renamed P (proj y))); [discriminate|].
      destruct (decide (CamelCase P typ ∈ seen st)); [discriminate|].
      destruct (failure (nested y (CamelCase P typ) (seen st))) as [err'|];
        [|discriminate].
      intros [= _ <-]. reflexivity.
  - intros H. destruct (IH _ _ _ _ H) as [[x [Hin Hm]] | [x [s [Hin Hn]]]].
    + left. exists x. split; [right; exact Hin | exact Hm].
    + right. exists x, s. split; [right; exact Hin | exact Hn].
Qed.

Lemma writeMessage_owned args :
  Forall (fun b => forall typ s e,
              failure (nestedMessage P r b typ s) = Some e ->
              exists m x, e = noTableOf P m x /\ owns P typ (subArgs b) m x) args ->
  forall msgName s e,
    failure (writeMessage P r (fun a => a) (nestedMessage P r) msgName s args) = Some e ->
    exists m x, e = noTableOf P m x /\ owns P msgName args m x.
Proof.
  intros Hall msgName s e. unfold writeMessage. rewrite map_id.
  destruct (find missingTableOf args) as [a|] eqn:Hfind.
  - simpl. intros [= <-]. exists msgName, a. split; [reflexivity|].
    apply owns_here. exact Hfind.
  - destruct (fields P r (fun a => a) (nestedMessage P r) msgName args 0 _)
      as [st [err|]] eqn:Hf; [|discriminate].
    simpl. intros [= <-].
    destruct (fields_error_source _ _ _ _ _ _ _ _ Hf) as [[x [Hin Hm]] | [x [s' [Hin Hn]]]].
    + pose proof (find_none _ _ Hfind x Hin) as Hnone. congruence.
    + rewrite Forall_forall in Hall.
      destruct (Hall x (proj2 (list_elem_of_In _ _) Hin) _ _ _ Hn) as [m [y [-> Hy]]].
      exists m, y. split; [reflexivity|].
      exact (owns_below P msgName args x m y Hin Hy).
Qed.

Lemma nestedMessage_owned a :
  forall typ s e,
    failure (nestedMessage P r a typ s) = Some e ->
    exists m x, e = noTableOf P m x /\ owns P typ (subArgs a) m x.
Proof.
  induction a as [a IH] using subArgs_ind. intros typ s e.
  rewrite nestedMessage_eq. unfold protoWriteMessageTyp.
  apply writeMessage_owned. exact IH.
Qed.

(** Every error of the emitter carries the name of a message it
    reached and the first table without [TableOf] of that message. *)
Lemma protoWriteMessageTyp_owned msgName s args e :
  failure (protoWriteMessageTyp P r msgName s args) = Some e ->
  exists m x, e = noTableOf P m x /\ owns P msgName args m x.
Proof.
  unfold protoWriteMessageTyp. apply writeMessage_owned.
  apply Forall_forall. intros a _. apply nestedMessage_owned.
Qed.

End Owner.

(** ** Placeholder type names *)

(** The descriptor of the loop's copy of an argument once the leading
    indirection marker, the collection marker and a further indirection
    marker are stripped. *)
Definition stripped (P : Package) (arg : Argument) : string :=
  let got := TrimPrefix (goType P arg false) "*" in
  let got := if HasPrefix got "[]" then drop 2 got else got in
  TrimPrefix got "*".

Lemma normalize_stripped P arg :
  snd (normalize P arg)
  = if String.eqb (stripped P arg) EmptyString
    then mkRecTypName (Name arg) else stripped P arg.
Proof.
  unfold normalize, stripped.
  destruct (HasPrefix (TrimPrefix (goType P arg false) "*") "[]"); simpl;
    match goal with |- context [String.eqb ?x EmptyString] =>
      destruct (String.eqb x EmptyString) end; reflexivity.
Qed.

Lemma renamed_name P arg :
  HasSuffix (Name arg) "#" = false -> renamed P arg = arg.
Proof. intros H. unfold renamed. rewrite H. reflexivity. Qed.

(** C9, as amended: when the stripped descriptor of an argument is
    empty, the type name handed to the type mapper is the name of the
    loop's copy of the argument, lower-cased, followed by [_rek_typ];
    the copy has the name of the argument itself unless that ends in
    the hidden marker, in which case it has the name [replHidden]
    makes of it;
    the emitter has no error for this case: a message whose trees miss
    no [TableOf] is emitted without error whatever the descriptors are,
    and every error the emitter returns is that of a missing
    [TableOf]. *)
Theorem C9_empty_descriptor_placeholder
  (P : Package) (r : protoOptions -> list (string * optVal)) (arg : Argument) :
  stripped P (renamed P arg) = EmptyString ->
  snd (normalize P (renamed P arg)) = ToLower (Name (renamed P arg)) ++ "_rek_typ"
  /\ (HasSuffix (Name arg) "#" = false ->
      snd (normalize P (renamed P arg)) = ToLower (Name arg) ++ "_rek_typ")
  /\ (forall msgName s args,
        In arg args -> forallb complete args = true ->
        failure (protoWriteMessageTyp P r msgName s args) = None)
  /\ (forall msgName s args e,
        failure (protoWriteMessageTyp P r msgName s args) = Some e ->
        Cause e = ErrMissingTableOf).
Proof.
  intros Hempty.
  assert (Hname : snd (normalize P (renamed P arg))
                  = ToLower (Name (renamed P arg)) ++ "_rek_typ").
  { rewrite normalize_stripped, Hempty. reflexivity. }
  split; [exact Hname|]. split; [|split].
  - intros Hplain. rewrite Hname, (renamed_name P arg Hplain). reflexivity.
  - intros msgName s args _ Hcomplete. apply protoWriteMessageTyp_ok. exact Hcomplete.
  - intros msgName s args e He. apply (namesMissing_cause P).
    exact (protoWriteMessageTyp_failure P r args msgName s e He).
Qed.

(** A record whose Go type is the bare indirection marker. *)
Definition anonymousRecord : Argument :=
  Demo.record "P_Rec" EmptyString 1 [ Demo.fld (Demo.scalar "id" "PLS_INTEGER" 1) ].

Lemma C9_empty_descriptor_placeholder_witness :
  snd (normalize (Demo.pkg true false false) anonymousRecord) = "p_rec_rek_typ"
  /\ text (protoWriteMessageTyp (Demo.pkg true false false) listOrder "M" ∅ [anonymousRecord])
     = nl ++ "message M {" ++ nl
         ++ tab ++ "PRecRekTyp P_Rec = 1;" ++ nl
         ++ "}" ++ nl
         ++ nl ++ "message PRecRekTyp {" ++ nl
         ++ tab ++ "// PLS_INTEGER" ++ nl
         ++ tab ++ "sint32 id = 1;" ++ nl
         ++ "}" ++ nl
  /\ failure (protoWriteMessageTyp (Demo.pkg true false false) listOrder "M" ∅ [anonymousRecord])
     = None.
Proof.
  pose proof (C9_empty_descriptor_placeholder (Demo.pkg true false false) listOrder
                anonymousRecord eq_refl) as [Hname [_ [Hok _]]].
  split; [exact Hname|]. split.
  - vm_compute. reflexivity.
  - apply Hok; [left; reflexivity | reflexivity].
Defined.

(** A record whose name ends in the hidden marker and whose Go type is
    the bare indirection marker. *)
Definition hiddenRows : Argument :=
  Demo.record "Rows#" EmptyString 1 [ Demo.fld (Demo.scalar "id" "PLS_INTEGER" 1) ].

(** For [Rows#] the placeholder is built from the name after the
    hidden marker is replaced: it is [rows__rek_typ], and not the name
    of the argument lower-cased and followed by the suffix. *)
Lemma C9_placeholder_of_hidden_name :
  let P := Demo.pkg true false false in
  stripped P (renamed P hiddenRows) = EmptyString
  /\ snd (normalize P (renamed P hiddenRows)) = "rows__rek_typ"
  /\ snd (normalize P (renamed P hiddenRows)) <> ToLower (Name hiddenRows) ++ "_rek_typ"
  /\ text (protoWriteMessageTyp P listOrder "M" ∅ [hiddenRows])
     = messageHeader "M" ++ tab ++ "RowsRekTyp Rows_ = 1;" ++ nl ++ "}" ++ nl
         ++ messageHeader "RowsRekTyp" ++ tab ++ "// PLS_INTEGER" ++ nl
         ++ tab ++ "sint32 id = 1;" ++ nl ++ "}" ++ nl.
Proof.
  intros P. split; [reflexivity|]. split; [reflexivity|]. split.
  - apply String.eqb_neq. vm_compute. reflexivity.
  - vm_compute. reflexivity.
Qed.

(** ** Message names and the service block *)

Lemma append_assoc (a b c : string) : (a ++ b) ++ c = a ++ b ++ c.
Proof. induction a as [|x a IH]; [reflexivity | exact (f_equal (String x) IH)]. Qed.

Lemma append_nil_r (a : string) : a ++ EmptyString = a.
Proof. induction a as [|x a IH]; [reflexivity | exact (f_equal (String x) IH)]. Qed.

Section Header.

Context (P : Package) (r : protoOptions -> list (string * optVal)).
Context {A : Type} (proj : A -> Argument).
Context (nested : A -> string -> gset string -> emitted) (msgName : string).

(** A turn only appends to what the message has so far. *)
Lemma field_out i x st :
  exists body, out (fst (field P r proj nested msgName i x st)) = out st ++ body.
Proof.
  unfold field.
  destruct (missingTableOf (renamed P (proj x))).
  { exists EmptyString. simpl. rewrite append_nil_r. reflexivity. }
  split_turn.
  destruct (isScalar (renamed P (proj x))); [eexists; reflexivity|].
  destruct (decide (CamelCase P typ ∈ seen st)); [eexists; reflexivity|].
  destruct (failure (nested x (CamelCase P typ) (seen st))).
  - exists EmptyString. simpl. rewrite append_nil_r. reflexivity.
  - eexists; reflexivity.
Qed.

Lemma fields_out l :
  forall i st,
  exists body, out (fst (fields P r proj nested msgName l i st)) = out st ++ body.
Proof.
  induction l as [|x l IH]; intros i st; simpl.
  - exists EmptyString. rewrite append_nil_r. reflexivity.
  - destruct (field_out i x st) as [b1 Hb1].
    destruct (field P r proj nested msgName i x st) as [st' [err|]]; simpl in *.
    + exists b1. exact Hb1.
    + destruct (IH (S i) st') as [b2 Hb2].
      exists (b1 ++ b2). rewrite Hb2, Hb1. apply append_assoc.
Qed.

(** A message that is emitted without error opens with its header. *)
Lemma writeMessage_header s l :
  failure (writeMessage P r proj nested msgName s l) = None ->
  exists body,
    text (writeMessage P r proj nested msgName s l) = messageHeader msgName ++ body.
Proof.
  unfold writeMessage.
  destruct (find missingTableOf (map proj l)); [discriminate|].
  destruct (fields_out l 0 (mkFrame (messageHeader msgName) buffers_Get s)) as [b Hb].
  destruct (fields P r proj nested msgName l 0 _) as [st [err|]]; [discriminate|].
  simpl in *. intros _. exists (b ++ "}" ++ nl ++ side st).
  rewrite Hb. apply append_assoc.
Qed.

End Header.







(** ** One function, and the loop over the functions *)

Section Functions.

Context (P : Package) (r : protoOptions -> list (string * optVal)) (dst : Writer).

(** How [SaveProtobuf] ends once the loop is over. *)
Definition finish (pkg : string) (res : run dst * option error) : sink dst * option error :=
  match res with
  | (st, Some err) => (dest st, Some err)
  | (st, None) => (writeService P dst (dest st) pkg (services st), None)
  end.

Lemma SaveProtobuf_finish w functions pkg :
  SaveProtobuf P r dst w functions pkg
  = finish pkg (FunLoop P r dst functions (mkRun (writeHeader P dst w pkg) ∅ [])).
Proof.
  unfold SaveProtobuf, finish.
  destruct (FunLoop P r dst functions _) as [st [err|]]; reflexivity.
Qed.

Lemma FunLoop_app pre post :
  forall st,
    FunLoop P r dst (pre ++ post)%list st
    = match FunLoop P r dst pre st with
      | (st1, None) => FunLoop P r dst post st1
      | (st1, Some err) => (st1, Some err)
      end.
Proof.
  induction pre as [|f pre IH]; intros st; simpl; [reflexivity|].
  destruct (Function_SaveProtobuf P r dst f (dest st) (names st)) as [[w s] [err|]].
  - destruct (SkipMissingTableOf P && isMissingTableOf err); [apply IH | reflexivity].
  - apply IH.
Qed.

(** A direction with a table without [TableOf] among its arguments
    fails before anything is written, with the error that names the
    message of the direction and the first such argument. *)
Lemma saveProtobufDir_missing f s o a :
  find missingTableOf (selectArgs P f o) = Some a ->
  saveProtobufDir P r f s o
  = mkEmitted EmptyString s (Some (noTableOf P (messageName P f o) a)).
Proof.
  intros H. unfold saveProtobufDir, protoWriteMessageTyp, writeMessage.
  rewrite map_id, H. reflexivity.
Qed.

(** What [Function.SaveProtobuf] does, by the outcome of the two
    directions. *)
Lemma Function_SaveProtobuf_cases f w s :
  let r1 := saveProtobufDir P r f s false in
  let r2 := saveProtobufDir P r f (registry r1) true in
  Function_SaveProtobuf P r dst f w s
  = match failure r1, failure r2 with
    | Some e, _ => (w, registry r1, Some (Wrapped e "input"))
    | None, Some e => (w, registry r2, Some (Wrapped e "output"))
    | None, None =>
        (fst (Write dst w (text r1 ++ text r2)), registry r2,
          snd (Write dst w (text r1 ++ text r2)))
    end.
Proof.
  intros r1 r2. unfold Function_SaveProtobuf. fold r1.
  destruct (failure r1); [reflexivity|]. fold r2.
  destruct (failure r2); [reflexivity|].
  destruct (Write dst w (text r1 ++ text r2)); reflexivity.
Qed.

End Functions.

(** C2: the text of both directions of a function goes to the
    destination in one [Write], after both have been emitted; when
    either direction fails, the destination is not written to at all,
    although the input direction, when it is the output direction that
    fails, did produce its message. *)
Theorem C2_function_emitted_whole_or_not
  (P : Package) (r : protoOptions -> list (string * optVal)) (dst : Writer)
  (f : Function) (w : sink dst) (s : gset string) :
  let r1 := saveProtobufDir P r f s false in
  let r2 := saveProtobufDir P r f (registry r1) true in
  let res := Function_SaveProtobuf P r dst f w s in
  match failure r1, failure r2 with
  | None, None =>
      fst (fst res) = fst (Write dst w (text r1 ++ text r2))
      /\ snd res = snd (Write dst w (text r1 ++ text r2))
  | None, Some e =>
      fst (fst res) = w /\ snd res = Some (Wrapped e "output")
      /\ exists body, text r1 = messageHeader (messageName P f false) ++ body
  | Some e, _ =>
      fst (fst res) = w /\ snd res = Some (Wrapped e "input")
  end.
Proof.
  intros r1 r2 res. unfold res.
  rewrite Function_SaveProtobuf_cases. fold r1 r2.
  destruct (failure r1) as [e1|] eqn:H1.
  - split; reflexivity.
  - destruct (failure r2) as [e2|].
    + split; [reflexivity|]. split; [reflexivity|].
      unfold r1, saveProtobufDir, protoWriteMessageTyp. apply writeMessage_header.
      exact H1.
    + split; reflexivity.
Qed.

(** C1: when the emission of a function fails, nothing is written for
    the function, and the error it returns is the sentinel
    [ErrMissingTableOf] wrapped twice: first with the text
    [no table of data for M.A (A)], where [M] is the name of a message
    of that direction (the message of the direction, or one below its
    composite arguments) and [A] is the first table without [TableOf]
    among the arguments of [M], then with the name of the direction.
    With [SkipMissingTableOf] set the loop goes on with the destination
    and the service entries it had before the function, so that the
    output has neither a message nor an rpc entry of the function, and
    the failure is not returned; with the flag cleared [SaveProtobuf]
    returns that error at once. *)
Theorem C1_missing_TableOf_policy
  (P : Package) (r : protoOptions -> list (string * optVal)) (dst : Writer)
  (w : sink dst) (pkg : string) (pre : list Function) (f : Function)
  (post : list Function) (st1 : run dst) :
  FunLoop P r dst pre (mkRun (writeHeader P dst w pkg) ∅ []) = (st1, None) ->
  let r1 := saveProtobufDir P r f (names st1) false in
  let r2 := saveProtobufDir P r f (registry r1) true in
  failure r1 <> None \/ failure r2 <> None ->
  let res := Function_SaveProtobuf P r dst f (dest st1) (names st1) in
  fst (fst res) = dest st1
  /\ (exists (o : bool) m a,
        owns P (messageName P f o) (selectArgs P f o) m a
        /\ missingTableOf a = true
        /\ snd res
           = Some (Wrapped
                     (Wrapped ErrMissingTableOf
                        ("no table of data for " ++ m ++ "." ++ Argument_s P a
                           ++ " (" ++ Argument_v P a ++ ")"))
                     (if o then "output" else "input")))
  /\ (forall e, snd res = Some e -> Cause e = ErrMissingTableOf)
  /\ (forall o a,
        (o = true -> failure r1 = None) ->
        find missingTableOf (selectArgs P f o) = Some a ->
        snd res
        = Some (Wrapped
                  (Wrapped ErrMissingTableOf
                     ("no table of data for " ++ messageName P f o ++ "." ++ Argument_s P a
                        ++ " (" ++ Argument_v P a ++ ")"))
                  (if o then "output" else "input")))
  /\ (SkipMissingTableOf P = true ->
      SaveProtobuf P r dst w (pre ++ f :: post)%list pkg
      = finish P dst pkg
          (FunLoop P r dst post (mkRun (dest st1) (snd (fst res)) (services st1))))
  /\ (SkipMissingTableOf P = true ->
      SaveProtobuf P r dst w (pre ++ [f])%list pkg = SaveProtobuf P r dst w pre pkg
      /\ snd (SaveProtobuf P r dst w (pre ++ [f])%list pkg) = None)
  /\ (SkipMissingTableOf P = false ->
      SaveProtobuf P r dst w (pre ++ f :: post)%list pkg = (dest st1, snd res)).
Proof.
  intros Hpre r1 r2 Hfail res.
  assert (Hres : exists s1 (o : bool) m a,
             res = (dest st1, s1, Some (Wrapped (noTableOf P m a) (dirnameOf o)))
             /\ owns P (messageName P f o) (selectArgs P f o) m a).
  { unfold res. rewrite Function_SaveProtobuf_cases. fold r1 r2.
    destruct (failure r1) as [e1|] eqn:H1.
    - destruct (protoWriteMessageTyp_owned P r _ _ _ _ H1) as [m [a [-> Ha]]].
      eexists _, false, m, a. split; [reflexivity | exact Ha].
    - destruct (failure r2) as [e2|] eqn:H2.
      + destruct (protoWriteMessageTyp_owned P r _ _ _ _ H2) as [m [a [-> Ha]]].
        eexists _, true, m, a. split; [reflexivity | exact Ha].
      + destruct Hfail as [Hf | Hf]; contradiction. }
  destruct Hres as [s1 [o [m [a [Hres Ha]]]]].
  assert (Hloop : forall rest,
             FunLoop P r dst (pre ++ f :: rest)%list (mkRun (writeHeader P dst w pkg) ∅ [])
             = if SkipMissingTableOf P
               then FunLoop P r dst rest (mkRun (dest st1) s1 (services st1))
               else (mkRun (dest st1) s1 (services st1),
                      Some (Wrapped (noTableOf P m a) (dirnameOf o)))).
  { intros rest. rewrite FunLoop_app, Hpre. simpl. fold res. rewrite Hres.
    unfold isMissingTableOf. simpl. rewrite andb_true_r. reflexivity. }
  split; [rewrite Hres; reflexivity|].
  split; [|split; [|split; [|split; [|split]]]].
  - exists o, m, a. rewrite Hres. split; [exact Ha|].
    split; [exact (owns_missing P _ _ _ _ Ha) | reflexivity].
  - intros e. rewrite Hres. simpl. intros [= <-]. reflexivity.
  - intros o' a0 Hin Hfind. unfold res. rewrite Function_SaveProtobuf_cases. fold r1 r2.
    destruct o'.
    + rewrite (Hin eq_refl). unfold r2.
      rewrite (saveProtobufDir_missing P r f _ true a0 Hfind). reflexivity.
    + unfold r1. rewrite (saveProtobufDir_missing P r f _ false a0 Hfind). reflexivity.
  - intros Hskip. rewrite SaveProtobuf_finish, Hloop, Hskip, Hres. reflexivity.
  - intros Hskip. rewrite !SaveProtobuf_finish, Hloop, Hskip, Hpre. split; reflexivity.
  - intros Hskip. rewrite SaveProtobuf_finish, Hloop, Hskip, Hres. reflexivity.
Qed.

(** Two functions of a package [pkg]: [pkg.a] takes a record and
    returns a table whose element type is unknown; [pkg.b] takes the
    same record. *)
Definition fooRecord : Argument :=
  Demo.record "p_rec" "foo_rec" 1 [ Demo.fld (Demo.scalar "id" "PLS_INTEGER" 1) ].

Definition tableless : Function :=
  mkFunction "pkg.a" [ fooRecord; Demo.table "p_tab" "tab_typ" 2 None ] None EmptyString.

Definition recordUser : Function :=
  mkFunction "pkg.b" [ fooRecord ] None EmptyString.

Lemma C1_missing_TableOf_policy_witness :
  let P := Demo.pkg true false false in
  let st1 := fst (FunLoop P listOrder bufferWriter [Demo.get_emp]
                    (mkRun (writeHeader P bufferWriter EmptyString "main") ∅ [])) in
  snd (Function_SaveProtobuf P listOrder bufferWriter tableless (dest st1) (names st1))
  = Some (Wrapped
            (Wrapped ErrMissingTableOf "no table of data for PkgAOutput.p_tab (p_tab)")
            "output")
  /\ SaveProtobuf P listOrder bufferWriter EmptyString [Demo.get_emp; tableless] "main"
     = SaveProtobuf P listOrder bufferWriter EmptyString [Demo.get_emp] "main"
  /\ snd (SaveProtobuf P listOrder bufferWriter EmptyString [Demo.get_emp; tableless] "main")
     = None.
Proof.
  intros P st1.
  assert (Hpre : FunLoop P listOrder bufferWriter [Demo.get_emp]
                   (mkRun (writeHeader P bufferWriter EmptyString "main") ∅ [])
                 = (st1, None)).
  { vm_compute. reflexivity. }
  assert (Hfail : failure (saveProtobufDir P listOrder tableless
                             (registry (saveProtobufDir P listOrder tableless
                                          (names st1) false)) true) <> None).
  { vm_compute. discriminate. }
  assert (Hin : failure (saveProtobufDir P listOrder tableless (names st1) false) = None).
  { vm_compute. reflexivity. }
  destruct (C1_missing_TableOf_policy P listOrder bufferWriter EmptyString "main"
              [Demo.get_emp] tableless [] st1 Hpre (or_intror Hfail))
    as [_ [_ [_ [Htext [_ [Hskip _]]]]]].
  split; [|exact (Hskip eq_refl)].
  exact (Htext true (Demo.table "p_tab" "tab_typ" 2 None) (fun _ => Hin) eq_refl).
Defined.

(** The same run with the flag cleared stops at [pkg.a]: the error
    names the message and the argument, and no service block is
    written. *)
Example policy_off_aborts :
  SaveProtobuf (Demo.pkg false false false) listOrder bufferWriter EmptyString
    [tableless; recordUser] "main"
  = ("syntax = " ++ dq ++ "proto3" ++ dq ++ ";" ++ nl ++ nl ++ "package main;" ++ nl,
      Some (Wrapped
              (Wrapped ErrMissingTableOf "no table of data for PkgAOutput.p_tab (p_tab)")
              "output")).
Proof. vm_compute. reflexivity. Qed.

(** The function that is left out still marks the registry: the body
    of [FooRec], emitted into the buffer of [pkg.a], is dropped with
    it, and [pkg.b] then refers to [FooRec] by name only. *)
Example skipped_function_marks_registry :
  let P := Demo.pkg true false false in
  occurrences (messageHeader "FooRec")
    (fst (SaveProtobuf P listOrder bufferWriter EmptyString [tableless; recordUser] "main")) = 0
  /\ occurrences (tab ++ "FooRec p_rec = 1;")
       (fst (SaveProtobuf P listOrder bufferWriter EmptyString [tableless; recordUser] "main")) = 1
  /\ occurrences (messageHeader "FooRec")
       (fst (SaveProtobuf P listOrder bufferWriter EmptyString [recordUser] "main")) = 1.
Proof. vm_compute. repeat split. Qed.

(** The output direction of [pkg.a] fails after the input direction
    has produced its message; the destination keeps what it had. *)
Example tableless_leaves_destination :
  let P := Demo.pkg true false false in
  fst (fst (Function_SaveProtobuf P listOrder bufferWriter tableless "so far" ∅)) = "so far"
  /\ failure (saveProtobufDir P listOrder tableless ∅ false) = None
  /\ text (saveProtobufDir P listOrder tableless ∅ false)
     = messageHeader "PkgAInput" ++ tab ++ "FooRec p_rec = 1;" ++ nl ++ "}" ++ nl
         ++ messageHeader "FooRec" ++ tab ++ "// PLS_INTEGER" ++ nl
         ++ tab ++ "sint32 id = 1;" ++ nl ++ "}" ++ nl.
Proof. vm_compute. repeat split. Qed.

(** ** Errors of the destination *)

(** A failing [Write] of the text of a function is returned by
    [Function.SaveProtobuf], and by the loop unless the skip policy
    takes it for a missing [TableOf]. *)
Lemma FunLoop_write_error P r dst f rest st err :
  failure (saveProtobufDir P r f (names st) false) = None ->
  failure (saveProtobufDir P r f
             (registry (saveProtobufDir P r f (names st) false)) true) = None ->
  snd (Write dst (dest st)
         (text (saveProtobufDir P r f (names st) false)
            ++ text (saveProtobufDir P r f
                       (registry (saveProtobufDir P r f (names st) false)) true)))
  = Some err ->
  SkipMissingTableOf P && isMissingTableOf err = false ->
  snd (FunLoop P r dst (f :: rest) st) = Some err.
Proof.
  intros H1 H2 Hw Hkeep. simpl.
  rewrite Function_SaveProtobuf_cases, H1, H2, Hw, Hkeep. reflexivity.
Qed.

(** C3, at the failing input: on a destination where every [Write]
    fails, [SaveProtobuf] over no functions writes the header and the
    service block, every one of these writes returns an error, and the
    call returns [nil]. *)
Theorem C3_SaveProtobuf_returns_nil_on_failed_writes
  (P : Package) (r : protoOptions -> list (string * optVal)) (pkg : string) :
  (forall p, snd (Write brokenWriter tt p) = Some (SinkError "write failed"))
  /\ SaveProtobuf P r brokenWriter tt [] pkg = (tt, None)
  /\ (forall (dst : Writer) (w : sink dst), snd (SaveProtobuf P r dst w [] pkg) = None).
Proof.
  split; [reflexivity|]. split; [|reflexivity].
  unfold SaveProtobuf. simpl.
  match goal with |- (?w, None) = (tt, None) => destruct w end. reflexivity.
Qed.

(** A destination that fills up after the messages of [get_emp]: the
    three writes of the service block fail, the output ends with the
    messages, and [SaveProtobuf] returns [nil]. *)
Example service_block_lost :
  SaveProtobuf (Demo.pkg true false false) listOrder fillingWriter (3, EmptyString)
    [Demo.get_emp] "main"
  = ((0, "syntax = " ++ dq ++ "proto3" ++ dq ++ ";" ++ nl ++ nl ++ "package main;" ++ nl
           ++ messageHeader "GetEmpInput" ++ tab ++ "// PLS_INTEGER" ++ nl
           ++ tab ++ "sint32 p_id = 1;" ++ nl ++ "}" ++ nl
           ++ messageHeader "GetEmpOutput" ++ tab ++ "EmpRec p_emp = 1;" ++ nl ++ "}" ++ nl
           ++ messageHeader "EmpRec" ++ tab ++ "// VARCHAR2" ++ nl
           ++ tab ++ "string name = 1;" ++ nl
           ++ tab ++ "// BINARY_DOUBLE" ++ nl
           ++ tab ++ "double salary = 2;" ++ nl ++ "}" ++ nl),
      None).
Proof. vm_compute. reflexivity. Qed.

(** ** The registry *)

Section Registry.

Context (P : Package) (r : protoOptions -> list (string * optVal)).
Context {A : Type} (proj : A -> Argument).
Context (nested : A -> string -> gset string -> emitted) (msgName : string).

(** A composite field whose type name is in the registry is written
    as its field line alone: no recursive call, nothing for the side
    buffer, the registry as it was. *)
Lemma field_registered i x st :
  let arg := renamed P (proj x) in
  let mapped := protoType P (snd (normalize P arg)) (Name arg) in
  missingTableOf arg = false ->
  isScalar arg = false ->
  CamelCase P (fst mapped) ∈ seen st ->
  field P r proj nested msgName i x st
  = (mkFrame
       (out st ++ fieldLine (fst (normalize P arg)) (CamelCase P (fst mapped)) (Name arg) i
          (optionSuffix r (snd mapped)))
       (side st) (seen st), None).
Proof.
  intros arg mapped Hm Hs Hin. unfold field. fold arg. rewrite Hm.
  unfold mapped in *. destruct (normalize P arg) as [rule got]; simpl in *.
  destruct (protoType P got (Name arg)) as [typ pOpts]; simpl in *.
  rewrite Hs. destruct (decide (CamelCase P typ ∈ seen st)); [reflexivity | contradiction].
Qed.

(** A composite field whose type name is not in the registry has its
    body emitted to the side buffer, and the name is in the registry
    once the body is complete. *)
Lemma field_registers i x st :
  let arg := renamed P (proj x) in
  let mapped := protoType P (snd (normalize P arg)) (Name arg) in
  let typ := CamelCase P (fst mapped) in
  missingTableOf arg = false ->
  isScalar arg = false ->
  typ ∉ seen st ->
  failure (nested x typ (seen st)) = None ->
  field P r proj nested msgName i x st
  = (mkFrame
       (out st ++ fieldLine (fst (normalize P arg)) typ (Name arg) i
          (optionSuffix r (snd mapped)))
       (side st ++ text (nested x typ (seen st)))
       ({[ typ ]} ∪ registry (nested x typ (seen st))), None).
Proof.
  intros arg mapped typ Hm Hs Hin Hok. unfold field. fold arg. rewrite Hm.
  unfold typ, mapped in *. destruct (normalize P arg) as [rule got]; simpl in *.
  destruct (protoType P got (Name arg)) as [typ' pOpts]; simpl in *.
  rewrite Hs. destruct (decide (CamelCase P typ' ∈ seen st)); [contradiction|].
  rewrite Hok. reflexivity.
Qed.

End Registry.

(** A record [foo_rec] one of whose fields is again of a type named
    [foo_rec]. *)
Definition selfNested : Function :=
  mkFunction "pkg.put"
    [ Demo.record "p_outer" "foo_rec" 1
        [ Demo.fld (Demo.record "inner" "foo_rec" 1
                      [ Demo.fld (Demo.scalar "id" "PLS_INTEGER" 1) ]) ] ]
    None EmptyString.

(** C4, at the failing input: the name [FooRec] enters the registry
    only when the body of the outer record is complete, so the field
    [inner] finds it absent and its body is emitted as well: the
    output has two messages [FooRec]. *)
Theorem C4_body_emitted_twice :
  let res := SaveProtobuf (Demo.pkg true false false) listOrder bufferWriter EmptyString
               [selfNested] "main" in
  snd res = None
  /\ occurrences (messageHeader "FooRec") (fst res) = 2
  /\ fst res
     = "syntax = " ++ dq ++ "proto3" ++ dq ++ ";" ++ nl ++ nl ++ "package main;" ++ nl
         ++ messageHeader "PkgPutInput" ++ tab ++ "FooRec p_outer = 1;" ++ nl ++ "}" ++ nl
         ++ messageHeader "FooRec" ++ tab ++ "FooRec inner = 1;" ++ nl ++ "}" ++ nl
         ++ messageHeader "FooRec" ++ tab ++ "// PLS_INTEGER" ++ nl
         ++ tab ++ "sint32 id = 1;" ++ nl ++ "}" ++ nl
         ++ messageHeader "PkgPutOutput" ++ "}" ++ nl
         ++ nl ++ "service Main {" ++ nl
         ++ tab ++ "rpc PkgPut (PkgPutInput) returns (PkgPutOutput) {}" ++ nl ++ "}".
Proof. vm_compute. repeat split. Qed.

(** ** Further runs of the emitter *)

Lemma C10_SaveProtobuf_deterministic_witness :
  SaveProtobuf (Demo.pkg true true true) listOrder bufferWriter EmptyString
    [Demo.get_emp; recordUser] "main"
  = SaveProtobuf (Demo.pkg true true true) reverseOrder bufferWriter EmptyString
      [Demo.get_emp; recordUser] "main".
Proof.
  exact (proj2 (proj2 (C10_SaveProtobuf_deterministic (Demo.pkg true true true)
                         listOrder reverseOrder bufferWriter EmptyString
                         [Demo.get_emp; recordUser] "main"
                         listOrder_valid reverseOrder_valid))).
Defined.

(** On a map of two keys the two walks do render differently. *)
Example two_keys_render_differently :
  let m : protoOptions := {[ "a" := VBool true; "b" := VString "x" ]} in
  protoOptions_String listOrder m <> protoOptions_String reverseOrder m.
Proof. apply String.eqb_neq. vm_compute. reflexivity. Qed.

(** The end-to-end example: [get_emp] with [p_id] (in) and the record
    [p_emp] (out). *)
Example get_emp_schema :
  SaveProtobuf (Demo.pkg true false false) listOrder bufferWriter EmptyString
    [Demo.get_emp] "main"
  = ("syntax = " ++ dq ++ "proto3" ++ dq ++ ";" ++ nl ++ nl ++ "package main;" ++ nl
       ++ messageHeader "GetEmpInput" ++ tab ++ "// PLS_INTEGER" ++ nl
       ++ tab ++ "sint32 p_id = 1;" ++ nl ++ "}" ++ nl
       ++ messageHeader "GetEmpOutput" ++ tab ++ "EmpRec p_emp = 1;" ++ nl ++ "}" ++ nl
       ++ messageHeader "EmpRec" ++ tab ++ "// VARCHAR2" ++ nl
       ++ tab ++ "string name = 1;" ++ nl
       ++ tab ++ "// BINARY_DOUBLE" ++ nl
       ++ tab ++ "double salary = 2;" ++ nl ++ "}" ++ nl
       ++ nl ++ "service Main {" ++ nl
       ++ tab ++ "rpc GetEmp (GetEmpInput) returns (GetEmpOutput) {}" ++ nl ++ "}",
      None).
Proof. vm_compute. reflexivity. Qed.

(** A function with arguments of every direction and a return value:
    the input message numbers [a] and [c] 1 and 2, the output message
    numbers [b], [c] and the return value 1, 2 and 3. *)
Definition mixed : Function :=
  mkFunction "calc"
    [ Demo.scalar "a" "PLS_INTEGER" 1; Demo.scalar "b" "VARCHAR2" 2;
      Demo.scalar "c" "VARCHAR2" 3; Demo.scalar "d" "VARCHAR2" 0 ]
    (Some (Demo.scalar "ret" "VARCHAR2" 2)) EmptyString.

Example mixed_directions :
  let P := Demo.pkg true false false in
  map Name (selectArgs P mixed false) = ["a"; "c"]
  /\ map Name (selectArgs P mixed true) = ["b"; "c"; "ret"]
  /\ text (saveProtobufDir P listOrder mixed ∅ true)
     = messageHeader "CalcOutput"
         ++ tab ++ "// VARCHAR2" ++ nl ++ tab ++ "string b = 1;" ++ nl
         ++ tab ++ "// VARCHAR2" ++ nl ++ tab ++ "string c = 2;" ++ nl
         ++ tab ++ "// VARCHAR2" ++ nl ++ tab ++ "string ret = 3;" ++ nl
         ++ "}" ++ nl.
Proof. vm_compute. repeat split. Qed.

(** * Further properties of the emitter *)

(** ** Strings *)

Lemma lower_byte_idem c : lower_byte (lower_byte c) = lower_byte c.
Proof. destruct c as [[] [] [] [] [] [] [] []]; reflexivity. Qed.

Lemma ToLower_idem s : ToLower (ToLower s) = ToLower s.
Proof.
  induction s as [|c s IH]; [reflexivity|].
  cbn [ToLower]. rewrite lower_byte_idem, IH. reflexivity.
Qed.

(** Lower-casing changes no byte into or out of a marker byte. *)
Lemma lower_byte_marker c m :
  m = "["%char \/ m = "]"%char \/ m = "*"%char ->
  (lower_byte c = m <-> c = m).
Proof.
  intros [-> | [-> | ->]];
    destruct c as [[] [] [] [] [] [] [] []]; split; intros H;
    solve [reflexivity | discriminate H].
Qed.

Lemma ToLower_drop n s : ToLower (GoStr.drop n s) = GoStr.drop n (ToLower s).
Proof.
  revert s. induction n as [|n IH]; intros s; [reflexivity|].
  destruct s as [|c s]; [reflexivity | apply IH].
Qed.

Lemma prefix_nil s : String.prefix EmptyString s = true.
Proof. destruct s; reflexivity. Qed.

Lemma marker_dec_lower c m :
  m = "["%char \/ m = "]"%char \/ m = "*"%char ->
  (if ascii_dec m (lower_byte c) then true else false)
  = (if ascii_dec m c then true else false).
Proof.
  intros Hm. pose proof (lower_byte_marker c m Hm) as [H1 H2].
  destruct (ascii_dec m (lower_byte c)) as [E|E], (ascii_dec m c) as [E'|E'];
    try reflexivity.
  - exfalso. apply E'. symmetry. apply H1. symmetry. exact E.
  - exfalso. apply E. symmetry. apply H2. symmetry. exact E'.
Qed.

Lemma HasPrefix_ToLower_star s : HasPrefix (ToLower s) "*" = HasPrefix s "*".
Proof.
  destruct s as [|c s]; [reflexivity|].
  unfold HasPrefix. cbn [ToLower String.prefix].
  pose proof (marker_dec_lower c "*"%char (or_intror (or_intror eq_refl))) as H.
  destruct (ascii_dec "*" (lower_byte c)), (ascii_dec "*" c);
    try discriminate H; [|reflexivity].
  rewrite !prefix_nil. reflexivity.
Qed.

Lemma HasPrefix_ToLower_brackets s : HasPrefix (ToLower s) "[]" = HasPrefix s "[]".
Proof.
  destruct s as [|c s]; [reflexivity|].
  unfold HasPrefix. cbn [ToLower String.prefix].
  pose proof (marker_dec_lower c "["%char (or_introl eq_refl)) as H.
  destruct (ascii_dec "[" (lower_byte c)), (ascii_dec "[" c);
    try discriminate H; [|reflexivity].
  destruct s as [|d s]; [reflexivity|]. cbn [ToLower String.prefix].
  pose proof (marker_dec_lower d "]"%char (or_intror (or_introl eq_refl))) as H'.
  destruct (ascii_dec "]" (lower_byte d)), (ascii_dec "]" d);
    try discriminate H'; [|reflexivity].
  rewrite !prefix_nil. reflexivity.
Qed.

Lemma trimmed_ToLower got :
  ToLower (TrimPrefix (TrimPrefix (ToLower got) "[]") "*")
  = ToLower (TrimPrefix (TrimPrefix got "[]") "*").
Proof.
  assert (H1 : TrimPrefix (ToLower got) "[]" = ToLower (TrimPrefix got "[]")).
  { unfold TrimPrefix. rewrite HasPrefix_ToLower_brackets.
    destruct (HasPrefix got "[]"); [|reflexivity]. symmetry. apply ToLower_drop. }
  rewrite H1.
  assert (H2 : forall s, TrimPrefix (ToLower s) "*" = ToLower (TrimPrefix s "*")).
  { intros s. unfold TrimPrefix. rewrite HasPrefix_ToLower_star.
    destruct (HasPrefix s "*"); [|reflexivity]. symmetry. apply ToLower_drop. }
  rewrite H2. apply ToLower_idem.
Qed.

(** X1: the type mapper reads the descriptor without regard to case:
    two descriptors that are equal once lower-cased get the same wire
    type and the same options. *)
Theorem X1_protoType_ignores_case (P : Package) (got got' aName : string) :
  ToLower got = ToLower got' ->
  protoType P got aName = protoType P got' aName.
Proof.
  intros H.
  assert (Ht : ToLower (TrimPrefix (TrimPrefix got "[]") "*")
               = ToLower (TrimPrefix (TrimPrefix got' "[]") "*")).
  { rewrite <- (trimmed_ToLower got), <- (trimmed_ToLower got'), H. reflexivity. }
  unfold protoType. rewrite Ht. reflexivity.
Qed.

Lemma X1_protoType_ignores_case_witness :
  protoType (Demo.pkg true false true) "[]*SQL.NullFloat64" "amount"
  = protoType (Demo.pkg true false true) "[]*sql.nullfloat64" "amount".
Proof.
  exact (X1_protoType_ignores_case (Demo.pkg true false true)
           "[]*SQL.NullFloat64" "[]*sql.nullfloat64" "amount" eq_refl).
Defined.

(** Whether the byte [c] occurs in [s]. *)
Fixpoint hasByte (c : ascii) (s : string) : bool :=
  match s with
  | EmptyString => false
  | String d s' => Ascii.eqb d c || hasByte c s'
  end.

Lemma Contains_byte c s : Contains s (String c EmptyString) = hasByte c s.
Proof.
  induction s as [|d s IH]; [reflexivity|].
  cbn [Contains hasByte]. rewrite IH. f_equal.
  unfold HasPrefix. cbn [String.prefix]. rewrite prefix_nil.
  destruct (ascii_dec c d) as [->|Hne].
  - rewrite Ascii.eqb_refl. reflexivity.
  - symmetry. apply Ascii.eqb_neq. congruence.
Qed.

Lemma hasByte_app c a b : hasByte c (a ++ b) = hasByte c a || hasByte c b.
Proof.
  induction a as [|d a IH]; [reflexivity|].
  change (String d a ++ b) with (String d (a ++ b)).
  cbn [hasByte]. rewrite IH. apply orb_assoc.
Qed.

Lemma hasByte_ReplaceByte c new s :
  hasByte c new = false -> hasByte c (ReplaceByte c new s) = false.
Proof.
  intros Hnew. induction s as [|d s IH]; [reflexivity|].
  cbn [ReplaceByte]. destruct (Ascii.eqb d c) eqn:E.
  - rewrite hasByte_app, Hnew, IH. reflexivity.
  - cbn [hasByte]. rewrite E, IH. reflexivity.
Qed.

(** X2: the name handed to [CamelCase] for a message holds no dot,
    whatever the function is called: every dot of the function name has
    become a double underscore. *)
Theorem X2_message_name_has_no_dot (f : Function) (o : bool) :
  Contains (dot2D_Replace (ToLower (name f)) ++ "__" ++ dirnameOf o) "." = false.
Proof.
  rewrite Contains_byte, hasByte_app.
  unfold dot2D_Replace. rewrite hasByte_ReplaceByte by reflexivity.
  destruct o; reflexivity.
Qed.

Lemma append_cancel_l (a x y : string) : a ++ x = a ++ y -> x = y.
Proof.
  induction a as [|c a IH]; intros H; [exact H|].
  apply IH. injection H as H. exact H.
Qed.

Lemma length_append (a b : string) :
  String.length (a ++ b) = String.length a + String.length b.
Proof.
  induction a as [|c a IH]; [reflexivity|].
  change (String.length (String c a ++ b)) with (S (String.length (a ++ b))).
  rewrite IH. reflexivity.
Qed.

Lemma append_cancel_r (b x y : string) : x ++ b = y ++ b -> x = y.
Proof.
  intros H.
  assert (Hlen : String.length x = String.length y).
  { apply (f_equal String.length) in H. rewrite !length_append in H. lia. }
  revert y H Hlen. induction x as [|c x IH]; intros [|d y] H Hlen;
    try reflexivity; try discriminate Hlen.
  injection H as -> H. f_equal. apply IH; [exact H|].
  injection Hlen as Hlen. exact Hlen.
Qed.

Lemma itoa_inj n m : itoa n = itoa m -> n = m.
Proof.
  intros H. unfold itoa in H.
  apply (f_equal NilEmpty.uint_of_string) in H.
  rewrite !NilEmpty.usu in H. injection H as H.
  apply (f_equal Nat.of_uint) in H.
  rewrite !DecimalNat.Unsigned.of_to in H. exact H.
Qed.

(** X3: the number of a field tells its position: the turns of the
    field loop for one argument at two different indices, from the
    same state and both without error, write different text, since
    the numerals [i+1] and [j+1] differ. *)
Theorem X3_field_numbers_distinct
  (P : Package) (r : protoOptions -> list (string * optVal))
  {A : Type} (proj : A -> Argument) (nested : A -> string -> gset string -> emitted)
  (msgName : string) (i j : nat) (x : A) (st sti stj : frame) :
  i <> j ->
  field P r proj nested msgName i x st = (sti, None) ->
  field P r proj nested msgName j x st = (stj, None) ->
  out sti <> out stj.
Proof.
  intros Hij Hi Hj Heq. apply Hij.
  pose proof (field_line P r proj nested msgName i x st sti Hi) as Li.
  pose proof (field_line P r proj nested msgName j x st stj Hj) as Lj.
  cbv zeta in Li, Lj. rewrite Li, Lj in Heq.
  apply append_cancel_l in Heq.
  assert (Hnum : itoa (i + 1) = itoa (j + 1)).
  { destruct (isScalar (renamed P (proj x)));
      repeat (apply append_cancel_l in Heq);
      exact (append_cancel_r _ _ _ Heq). }
  apply itoa_inj in Hnum. lia.
Qed.

Lemma X3_field_numbers_distinct_witness :
  let turn := fun k =>
                field (Demo.pkg true false false) listOrder (fun a => a)
                  (fun _ _ s => mkEmitted EmptyString s None) "M" k
                  (Demo.scalar "n" "PLS_INTEGER" 1) (mkFrame EmptyString EmptyString ∅) in
  out (fst (turn 0)) <> out (fst (turn 10)).
Proof.
  intros turn.
  refine (X3_field_numbers_distinct (Demo.pkg true false false) listOrder (fun a => a)
            (fun _ _ s => mkEmitted EmptyString s None) "M" 0 10
            (Demo.scalar "n" "PLS_INTEGER" 1) (mkFrame EmptyString EmptyString ∅)
            (fst (turn 0)) (fst (turn 10)) _ eq_refl eq_refl).
  lia.
Defined.

(** X4: the wire type is one of the four scalar types, or it is the
    lower-cased descriptor itself and then there are no options; the
    options are empty or the one tag [gogoproto.jsontag] whose value is
    the field name followed by [,omitempty] (wire type [string]) or,
    with [NumberAsString] only, by [,string,omitempty] (wire types
    [sint32] and [double]). *)
Theorem X4_protoType_table (P : Package) (got aName : string) :
  let wire := fst (protoType P got aName) in
  let opts := snd (protoType P got aName) in
  ((wire = "string" \/ wire = "sint32" \/ wire = "double" \/ wire = "bytes")
   \/ (wire = ToLower (TrimPrefix (TrimPrefix got "[]") "*") /\ opts = ∅))
  /\ (opts = ∅
      \/ (opts = {[ "gogoproto.jsontag" := VString (aName ++ ",omitempty") ]}
          /\ wire = "string")
      \/ (opts = {[ "gogoproto.jsontag" := VString (aName ++ ",string,omitempty") ]}
          /\ NumberAsString P = true /\ (wire = "sint32" \/ wire = "double"))).
Proof.
  unfold protoType.
  repeat match goal with
         | |- context [if ?b then _ else _] => destruct b eqn:?
         end; simpl; split; auto 10.
Qed.

(** ** Rendering of options in general *)

(** One entry as [protoOptions.String] prints it. *)
Definition renderOption (kv : string * optVal) : string :=
  "(" ++ fst kv ++ ")="
    ++ match snd kv with
       | VBool b => if b then "true" else "false"
       | VString v => Quote v
       end.

(** The entries after the first, each behind a comma and a blank. *)
Fixpoint renderMore (l : list (string * optVal)) : string :=
  match l with
  | [] => EmptyString
  | kv :: l' => ", " ++ renderOption kv ++ renderMore l'
  end.

Definition renderAll (l : list (string * optVal)) : string :=
  match l with
  | [] => EmptyString
  | kv :: l' => renderOption kv ++ renderMore l'
  end.

Lemma writeOption_first kv : writeOption "[" kv = "[" ++ renderOption kv.
Proof. unfold writeOption, renderOption. destruct (snd kv); rewrite !append_assoc; reflexivity. Qed.

Lemma writeOption_next c x kv :
  writeOption ("[" ++ String c x) kv = "[" ++ String c x ++ ", " ++ renderOption kv.
Proof.
  unfold writeOption, renderOption.
  change (String.length ("[" ++ String c x)) with (S (S (String.length x))).
  cbn [Nat.eqb negb].
  destruct (snd kv); rewrite !append_assoc; reflexivity.
Qed.

Lemma renderOption_cons kv : exists c x, renderOption kv = String c x.
Proof. eexists _, _. reflexivity. Qed.

Lemma fold_writeOption_more l :
  forall c x,
    fold_left writeOption l ("[" ++ String c x) = "[" ++ String c x ++ renderMore l.
Proof.
  induction l as [|kv l IH]; intros c x; cbn [fold_left renderMore].
  - rewrite append_nil_r. reflexivity.
  - rewrite writeOption_next.
    change ("[" ++ String c x ++ ", " ++ renderOption kv)
      with ("[" ++ String c (x ++ ", " ++ renderOption kv)).
    rewrite IH.
    change (String c (x ++ ", " ++ renderOption kv) ++ renderMore l)
      with (String c ((x ++ ", " ++ renderOption kv) ++ renderMore l)).
    rewrite !append_assoc. reflexivity.
Qed.

(** X5: a map that is not empty renders as its entries in the order
    of the walk, each as [(key)=value], separated by a comma and a
    blank, between brackets: the separator stands between entries only,
    never after the bracket. *)
Theorem X5_options_bracketed_list
  (r : protoOptions -> list (string * optVal)) (opts : protoOptions) :
  protoOptions_String r opts
  = if (size opts =? 0)%nat then EmptyString else "[" ++ renderAll (r opts) ++ "]".
Proof.
  unfold protoOptions_String. destruct (size opts =? 0)%nat; [reflexivity|].
  destruct (r opts) as [|kv l]; [reflexivity|].
  cbn [fold_left renderAll]. rewrite writeOption_first.
  destruct (renderOption_cons kv) as [c [x ->]].
  rewrite fold_writeOption_more. rewrite !append_assoc. reflexivity.
Qed.

(** ** The registry over a whole message *)

Section RegistryGrowth.

Context (P : Package) (r : protoOptions -> list (string * optVal)).

Section Growth.

Context {A : Type} (proj : A -> Argument).
Context (nested : A -> string -> gset string -> emitted) (msgName : string).

Lemma field_grows i x st :
  (forall typ s, s ⊆ registry (nested x typ s)) ->
  seen st ⊆ seen (fst (field P r proj nested msgName i x st)).
Proof.
  intros nested_grows. unfold field.
  destruct (missingTableOf (renamed P (proj x))); [reflexivity|].
  split_turn.
  destruct (isScalar (renamed P (proj x))); [reflexivity|].
  destruct (decide (CamelCase P typ ∈ seen st)); [reflexivity|].
  pose proof (nested_grows (CamelCase P typ) (seen st)) as H.
  destruct (failure (nested x (CamelCase P typ) (seen st))); simpl; set_solver.
Qed.

Lemma fields_grow l :
  Forall (fun x => forall typ s, s ⊆ registry (nested x typ s)) l ->
  forall i st, seen st ⊆ seen (fst (fields P r proj nested msgName l i st)).
Proof.
  induction 1 as [|x l Hx _ IH]; intros i st; simpl; [reflexivity|].
  pose proof (field_grows i x st Hx) as H.
  destruct (field P r proj nested msgName i x st) as [st' [err|]]; simpl in *;
    [exact H|].
  etransitivity; [exact H | apply IH].
Qed.

Lemma writeMessage_grows s l :
  Forall (fun x => forall typ s', s' ⊆ registry (nested x typ s')) l ->
  s ⊆ registry (writeMessage P r proj nested msgName s l).
Proof.
  intros Hl. unfold writeMessage.
  destruct (find missingTableOf (map proj l)); [reflexivity|].
  pose proof (fields_grow l Hl 0 (mkFrame (messageHeader msgName) buffers_Get s)) as H.
  destruct (fields P r proj nested msgName l 0 _) as [st [err|]]; exact H.
Qed.

End Growth.

Lemma nestedMessage_grows a : forall typ s, s ⊆ registry (nestedMessage P r a typ s).
Proof.
  induction a as [a IH] using subArgs_ind. intros typ s.
  rewrite nestedMessage_eq. unfold protoWriteMessageTyp.
  apply writeMessage_grows. exact IH.
Qed.

Section OneMessage.

Context {A : Type} (proj : A -> Argument).
Context (nested : A -> string -> gset string -> emitted) (msgName : string).
Hypothesis nested_grows : forall x typ s, s ⊆ registry (nested x typ s).

Lemma fields_grow_all l i st :
  seen st ⊆ seen (fst (fields P r proj nested msgName l i st)).
Proof.
  apply fields_grow. apply Forall_forall. intros x _. apply nested_grows.
Qed.

(** A turn that does not return leaves the type name of a composite
    argument in the registry. *)
Lemma field_type_registered i x st st' :
  field P r proj nested msgName i x st = (st', None) ->
  isScalar (proj x) = false ->
  typeName P (proj x) ∈ seen st'.
Proof.
  unfold field, typeName. rewrite renamed_isScalar.
  destruct (missingTableOf (renamed P (proj x))); [discriminate|].
  intros H Hs. rewrite Hs in H. revert H.
  destruct (normalize P (renamed P (proj x))) as [rule got]. cbn [snd].
  destruct (protoType P got (Name (renamed P (proj x)))) as [typ pOpts]. cbn [fst].
  destruct (decide (CamelCase P typ ∈ seen st)) as [Hin|Hout].
  - intros [= <-]. exact Hin.
  - destruct (failure (nested x (CamelCase P typ) (seen st))); [discriminate|].
    intros [= <-]. simpl. set_solver.
Qed.

Lemma fields_types_registered l :
  forall i st st',
    fields P r proj nested msgName l i st = (st', None) ->
    forall x, In x l -> isScalar (proj x) = false -> typeName P (proj x) ∈ seen st'.
Proof.
  induction l as [|y l IH]; intros i st st' H x Hin Hs; [destruct Hin|].
  simpl in H.
  destruct (field P r proj nested msgName i y st) as [st1 [err|]] eqn:Hy; [discriminate|].
  destruct Hin as [<- | Hin].
  - pose proof (field_type_registered i y st st1 Hy Hs) as Hreg.
    pose proof (fields_grow_all l (S i) st1) as Hmono. rewrite H in Hmono. simpl in Hmono.
    set_solver.
  - exact (IH (S i) st1 st' H x Hin Hs).
Qed.

Lemma writeMessage_types_registered s l :
  failure (writeMessage P r proj nested msgName s l) = None ->
  forall x, In x l -> isScalar (proj x) = false ->
            typeName P (proj x) ∈ registry (writeMessage P r proj nested msgName s l).
Proof.
  unfold writeMessage.
  destruct (find missingTableOf (map proj l)); [discriminate|].
  destruct (fields P r proj nested msgName l 0 _) as [st [err|]] eqn:Hf; [discriminate|].
  intros _ x Hin Hs. simpl. exact (fields_types_registered l _ _ _ Hf x Hin Hs).
Qed.

(** Past the first loop, the test of the second loop for a missing
    [TableOf] never holds: a turn that returns an error returns the
    error of its recursive call. *)
Lemma fields_error_is_nested l :
  Forall (fun x => missingTableOf (proj x) = false) l ->
  forall i st st' e,
    fields P r proj nested msgName l i st = (st', Some e) ->
    exists x typ s, In x l /\ failure (nested x typ s) = Some e.
Proof.
  induction 1 as [|y l Hy _ IH]; intros i st st' e; simpl; [discriminate|].
  destruct (field P r proj nested msgName i y st) as [st1 [err|]] eqn:Hfield.
  - intros [= _ <-]. unfold field in Hfield.
    rewrite renamed_missingTableOf, Hy in Hfield. revert Hfield. split_turn.
    destruct (isScalar (renamed P (proj y))); [discriminate|].
    destruct (decide (CamelCase P typ ∈ seen st)); [discriminate|].
    destruct (failure (nested y (CamelCase P typ) (seen st))) as [err'|] eqn:Hn;
      [|discriminate].
    intros [= _ <-]. exists y, (CamelCase P typ), (seen st). split; [left; reflexivity | exact Hn].
  - intros H. destruct (IH _ _ _ _ H) as [x [typ [s [Hin Hn]]]].
    exists x, typ, s. split; [right; exact Hin | exact Hn].
Qed.

End OneMessage.

End RegistryGrowth.

(** X6: the registry only grows: every name registered before a call
    of [protoWriteMessageTyp] is registered after it, whether the call
    returns an error or not. *)
Theorem X6_registry_grows
  (P : Package) (r : protoOptions -> list (string * optVal))
  (msgName : string) (s : gset string) (args : list Argument) :
  s ⊆ registry (protoWriteMessageTyp P r msgName s args).
Proof.
  unfold protoWriteMessageTyp. apply writeMessage_grows.
  apply Forall_forall. intros a _. apply nestedMessage_grows.
Qed.

(** X7: after a message is emitted without error, the type name of
    each of its composite arguments is in the registry, so that no
    later argument of that type name has a body emitted. *)
Theorem X7_composite_types_registered
  (P : Package) (r : protoOptions -> list (string * optVal))
  (msgName : string) (s : gset string) (args : list Argument) (a : Argument) :
  failure (protoWriteMessageTyp P r msgName s args) = None ->
  In a args ->
  isScalar a = false ->
  typeName P a ∈ registry (protoWriteMessageTyp P r msgName s args).
Proof.
  intros Hok Hin Hs. unfold protoWriteMessageTyp in *.
  exact (writeMessage_types_registered P r (fun a => a) (nestedMessage P r) msgName
           (nestedMessage_grows P r) s args Hok a Hin Hs).
Qed.

Lemma X7_composite_types_registered_witness :
  "FooRec" ∈ registry (protoWriteMessageTyp (Demo.pkg true false false) listOrder "M" ∅
                         [fooRecord]).
Proof.
  exact (X7_composite_types_registered (Demo.pkg true false false) listOrder "M" ∅
           [fooRecord] fooRecord eq_refl (or_introl eq_refl) eq_refl).
Defined.

(** X8: an error of [protoWriteMessageTyp] is either that of the first
    table without [TableOf] among its own arguments, returned before
    anything is written or registered, or, when there is no such
    argument, the unchanged error of the recursive call for one of its
    arguments: the second test for a missing [TableOf], inside the
    field loop, never fires. *)
Theorem X8_errors_of_a_message
  (P : Package) (r : protoOptions -> list (string * optVal))
  (msgName : string) (s : gset string) (args : list Argument) (e : error) :
  failure (protoWriteMessageTyp P r msgName s args) = Some e ->
  (exists a, find missingTableOf args = Some a
             /\ e = noTableOf P msgName a
             /\ text (protoWriteMessageTyp P r msgName s args) = EmptyString
             /\ registry (protoWriteMessageTyp P r msgName s args) = s)
  \/ (find missingTableOf args = None
      /\ exists a typ s',
          In a args
          /\ failure (protoWriteMessageTyp P r typ s' (subArgs a)) = Some e).
Proof.
  rewrite protoWriteMessageTyp_unfold. unfold writeMessage. rewrite map_id.
  destruct (find missingTableOf args) as [a|] eqn:Hfind.
  - simpl. intros [= <-]. left. exists a. repeat split.
  - destruct (fields P r (fun a => a) _ msgName args 0 _) as [st [err|]] eqn:Hf;
      [|discriminate].
    simpl. intros [= <-]. right. split; [reflexivity|].
    assert (Hall : Forall (fun x => missingTableOf x = false) args).
    { apply Forall_forall. intros x Hx.
      destruct (missingTableOf x) eqn:Hm; [|reflexivity].
      apply list_elem_of_In in Hx.
      pose proof (find_none _ _ Hfind x Hx) as Hn. congruence. }
    exact (fields_error_is_nested P r (fun a => a) _ msgName args Hall _ _ _ _ Hf).
Qed.

(** A record one of whose fields is a table of unknown element type. *)
Definition holedRecord : Argument :=
  Demo.record "p_rec" "holed_rec" 1
    [ Demo.fld (Demo.scalar "id" "PLS_INTEGER" 1);
      Demo.fld (Demo.table "rows" "row_tab" 1 None) ].

Lemma X8_errors_of_a_message_witness :
  let P := Demo.pkg true false false in
  find missingTableOf [holedRecord] = None
  /\ exists a typ s',
      In a [holedRecord]
      /\ failure (protoWriteMessageTyp P listOrder typ s' (subArgs a))
         = Some (Wrapped ErrMissingTableOf "no table of data for HoledRec.rows (rows)").
Proof.
  intros P.
  assert (Hfail : failure (protoWriteMessageTyp P listOrder "M" ∅ [holedRecord])
                  = Some (Wrapped ErrMissingTableOf
                            "no table of data for HoledRec.rows (rows)")).
  { vm_compute. reflexivity. }
  destruct (X8_errors_of_a_message P listOrder "M" ∅ [holedRecord] _ Hfail)
    as [[a [Hfind _]] | H].
  - discriminate Hfind.
  - exact H.
Defined.

(** ** The text of a message *)

Fixpoint concatS (l : list string) : string :=
  match l with
  | [] => EmptyString
  | a :: l' => a ++ concatS l'
  end.

(** What the turn of index [k] adds to the message for [a]: the doc
    comment of a scalar, and the field line with the number [k+1]. *)
Definition fieldText (P : Package) (r : protoOptions -> list (string * optVal))
  (k : nat) (a : Argument) : string :=
  let arg := renamed P a in
  let rule := fst (normalize P arg) in
  let mapped := protoType P (snd (normalize P arg)) (Name arg) in
  if isScalar arg
  then tab ++ "// " ++ AbsType arg ++ nl
         ++ tab ++ rule ++ fst mapped ++ " " ++ Name arg ++ " = " ++ itoa (k + 1)
         ++ optionSuffix r (snd mapped) ++ ";" ++ nl
  else tab ++ rule ++ CamelCase P (fst mapped) ++ " " ++ Name arg ++ " = "
         ++ itoa (k + 1) ++ optionSuffix r (snd mapped) ++ ";" ++ nl.

(** The field groups of a message over [args], numbered from [i+1]. *)
Definition fieldTexts (P : Package) (r : protoOptions -> list (string * optVal))
  (i : nat) (args : list Argument) : string :=
  concatS (map (fun kx => fieldText P r (fst kx) (snd kx))
             (combine (seq i (length args)) args)).

Section MessageText.

Context (P : Package) (r : protoOptions -> list (string * optVal)).
Context {A : Type} (proj : A -> Argument).
Context (nested : A -> string -> gset string -> emitted) (msgName : string).

Lemma fields_text l :
  forall i st st',
    fields P r proj nested msgName l i st = (st', None) ->
    out st' = out st ++ fieldTexts P r i (map proj l).
Proof.
  induction l as [|x l IH]; intros i st st'; simpl.
  - intros [= <-]. unfold fieldTexts. simpl. rewrite append_nil_r. reflexivity.
  - destruct (field P r proj nested msgName i x st) as [st1 [err|]] eqn:Hx; [discriminate|].
    intros H. rewrite (IH _ _ _ H).
    rewrite (field_line P r proj nested msgName i x st st1 Hx).
    unfold fieldTexts. cbn [length seq combine map concatS fst snd].
    rewrite append_assoc. reflexivity.
Qed.

Lemma field_scalar i x st :
  isScalar (proj x) = true ->
  field P r proj nested msgName i x st
  = (mkFrame (out st ++ fieldText P r i (proj x)) (side st) (seen st), None).
Proof.
  intros Hs.
  assert (Hm : missingTableOf (renamed P (proj x)) = false).
  { rewrite renamed_missingTableOf. unfold isScalar in Hs. unfold missingTableOf.
    destruct (Flavor (proj x)), (TableOf (proj x)); simpl in *; congruence. }
  unfold field, fieldText. rewrite Hm, renamed_isScalar, Hs.
  destruct (normalize P (renamed P (proj x))) as [rule got]. cbn [fst snd].
  destruct (protoType P got (Name (renamed P (proj x)))) as [typ pOpts]. reflexivity.
Qed.

Lemma fields_scalars l :
  forallb isScalar (map proj l) = true ->
  forall i st,
    fields P r proj nested msgName l i st
    = (mkFrame (out st ++ fieldTexts P r i (map proj l)) (side st) (seen st), None).
Proof.
  induction l as [|x l IH]; intros Hs i st; simpl.
  - unfold fieldTexts. simpl. rewrite append_nil_r. destruct st; reflexivity.
  - simpl in Hs. apply andb_prop in Hs as [Hx Hl].
    rewrite (field_scalar i x st Hx), (IH Hl). simpl.
    unfold fieldTexts. cbn [length seq combine map concatS fst snd].
    rewrite append_assoc. reflexivity.
Qed.

End MessageText.

(** X9: a message that is emitted without error is its header, then
    for each argument in order the field group of that argument
    numbered from 1, then the closing brace, and only then the
    messages of the composite arguments: no nested message stands
    inside the message that refers to it. *)
Theorem X9_message_layout
  (P : Package) (r : protoOptions -> list (string * optVal))
  (msgName : string) (s : gset string) (args : list Argument) :
  failure (protoWriteMessageTyp P r msgName s args) = None ->
  exists nestedMessages,
    text (protoWriteMessageTyp P r msgName s args)
    = messageHeader msgName ++ fieldTexts P r 0 args ++ "}" ++ nl ++ nestedMessages.
Proof.
  unfold protoWriteMessageTyp, writeMessage.
  destruct (find missingTableOf (map (fun a => a) args)); [discriminate|].
  destruct (fields P r (fun a => a) (nestedMessage P r) msgName args 0 _)
    as [st [err|]] eqn:Hf; [discriminate|].
  intros _. exists (side st). simpl.
  rewrite (fields_text P r (fun a => a) _ msgName args _ _ _ Hf), map_id. simpl.
  rewrite append_assoc. reflexivity.
Qed.

Lemma X9_message_layout_witness :
  exists nestedMessages,
    text (protoWriteMessageTyp (Demo.pkg true false false) listOrder "M" ∅
            [Demo.scalar "n" "PLS_INTEGER" 1; fooRecord])
    = messageHeader "M"
        ++ fieldTexts (Demo.pkg true false false) listOrder 0
             [Demo.scalar "n" "PLS_INTEGER" 1; fooRecord]
        ++ "}" ++ nl ++ nestedMessages.
Proof.
  exact (X9_message_layout (Demo.pkg true false false) listOrder "M" ∅
           [Demo.scalar "n" "PLS_INTEGER" 1; fooRecord] eq_refl).
Defined.

(** X10: a message all of whose arguments are plain scalars or tables
    of plain scalars is emitted without error whatever the registry
    holds and leaves it as it was; its text is the header, the field
    groups and the closing brace, with nothing behind it. *)
Theorem X10_scalar_message
  (P : Package) (r : protoOptions -> list (string * optVal))
  (msgName : string) (s : gset string) (args : list Argument) :
  forallb isScalar args = true ->
  protoWriteMessageTyp P r msgName s args
  = mkEmitted (messageHeader msgName ++ fieldTexts P r 0 args ++ "}" ++ nl) s None.
Proof.
  intros Hs. unfold protoWriteMessageTyp, writeMessage. rewrite map_id.
  assert (Hfind : find missingTableOf args = None).
  { clear -Hs. induction args as [|a args IH]; [reflexivity|].
    simpl in *. apply andb_prop in Hs as [Ha Hl].
    assert (Hm : missingTableOf a = false).
    { unfold isScalar in Ha. unfold missingTableOf.
      destruct (Flavor a), (TableOf a); simpl in *; congruence. }
    rewrite Hm. exact (IH Hl). }
  rewrite Hfind.
  rewrite (fields_scalars P r (fun a => a) (nestedMessage P r) msgName args);
    [|rewrite map_id; exact Hs].
  rewrite map_id. simpl. unfold buffers_Get.
  rewrite !append_assoc, append_nil_r. reflexivity.
Qed.

Lemma X10_scalar_message_witness :
  protoWriteMessageTyp (Demo.pkg true false false) listOrder "M" {[ "Kept" ]}
    [Demo.scalar "n" "PLS_INTEGER" 1;
     Demo.table "tags" "TAG_TAB" 1 (Some (Demo.scalar "tag" "VARCHAR2" 1))]
  = mkEmitted
      (messageHeader "M"
         ++ fieldTexts (Demo.pkg true false false) listOrder 0
              [Demo.scalar "n" "PLS_INTEGER" 1;
               Demo.table "tags" "TAG_TAB" 1 (Some (Demo.scalar "tag" "VARCHAR2" 1))]
         ++ "}" ++ nl)
      {[ "Kept" ]} None.
Proof.
  exact (X10_scalar_message (Demo.pkg true false false) listOrder "M" {[ "Kept" ]}
           [Demo.scalar "n" "PLS_INTEGER" 1;
            Demo.table "tags" "TAG_TAB" 1 (Some (Demo.scalar "tag" "VARCHAR2" 1))]
           eq_refl).
Defined.

(** ** The loop over the functions, as a whole *)

(** No table in the arguments or in the return value of [f] lacks its
    [TableOf]. *)
Definition completeFunction (f : Function) : bool :=
  forallb complete (Args f)
  && match Returns f with
     | Some ret => complete ret
     | None => true
     end.

Lemma selectArgs_complete P f o :
  completeFunction f = true -> forallb complete (selectArgs P f o) = true.
Proof.
  unfold completeFunction. intros H. apply andb_prop in H as [Hargs Hret].
  rewrite selectArgs_filter, forallb_app. apply andb_true_intro. split.
  - apply forallb_forall. intros a Ha. apply filter_In in Ha as [Ha _].
    rewrite forallb_forall in Hargs. exact (Hargs a Ha).
  - destruct o; [|reflexivity].
    destruct (Returns f); simpl; [rewrite Hret|]; reflexivity.
Qed.

Section WholeLoop.

Context (P : Package) (r : protoOptions -> list (string * optVal)) (dst : Writer).

(** An error of [Function.SaveProtobuf] is that of a missing
    [TableOf], or it is the error of the one [Write]. *)
Lemma Function_SaveProtobuf_error f w s e :
  snd (Function_SaveProtobuf P r dst f w s) = Some e ->
  isMissingTableOf e = true \/ exists p, snd (Write dst w p) = Some e.
Proof.
  rewrite Function_SaveProtobuf_cases.
  destruct (failure (saveProtobufDir P r f s false)) as [e1|] eqn:H1.
  - simpl. intros [= <-]. left. unfold isMissingTableOf. simpl.
    rewrite (namesMissing_cause P e1 (protoWriteMessageTyp_failure P r _ _ _ _ H1)).
    reflexivity.
  - destruct (failure (saveProtobufDir P r f _ true)) as [e2|] eqn:H2.
    + simpl. intros [= <-]. left. unfold isMissingTableOf. simpl.
      rewrite (namesMissing_cause P e2 (protoWriteMessageTyp_failure P r _ _ _ _ H2)).
      reflexivity.
    + simpl. intros H. right. eexists. exact H.
Qed.

Lemma FunLoop_skip_error functions :
  SkipMissingTableOf P = true ->
  forall st e, snd (FunLoop P r dst functions st) = Some e -> isMissingTableOf e = false.
Proof.
  intros Hskip. induction functions as [|f rest IH]; intros st e; simpl; [discriminate|].
  destruct (Function_SaveProtobuf P r dst f (dest st) (names st)) as [[w s] [err|]].
  - rewrite Hskip. simpl. destruct (isMissingTableOf err) eqn:Hm.
    + apply IH.
    + simpl. intros [= <-]. exact Hm.
  - apply IH.
Qed.

Lemma FunLoop_reliable functions :
  (forall w p, snd (Write dst w p) = None) ->
  SkipMissingTableOf P = true ->
  forall st, snd (FunLoop P r dst functions st) = None.
Proof.
  intros Hw Hskip. induction functions as [|f rest IH]; intros st; simpl; [reflexivity|].
  pose proof (Function_SaveProtobuf_error f (dest st) (names st)) as Herr.
  destruct (Function_SaveProtobuf P r dst f (dest st) (names st)) as [[w s] [err|]];
    [|apply IH].
  destruct (Herr err eq_refl) as [Hm | [p Hp]].
  - rewrite Hskip, Hm. simpl. apply IH.
  - rewrite Hw in Hp. discriminate Hp.
Qed.

Lemma FunLoop_complete functions :
  (forall w p, snd (Write dst w p) = None) ->
  forallb completeFunction functions = true ->
  forall st,
  exists st',
    FunLoop P r dst functions st = (st', None)
    /\ services st' = (services st ++ map (rpcLine P) functions)%list.
Proof.
  intros Hw. induction functions as [|f rest IH]; intros Hc st; simpl.
  - exists st. rewrite app_nil_r. split; reflexivity.
  - simpl in Hc. apply andb_prop in Hc as [Hf Hrest].
    rewrite Function_SaveProtobuf_cases.
    unfold saveProtobufDir.
    rewrite !(protoWriteMessageTyp_ok P r _ (selectArgs_complete P f _ Hf)).
    rewrite Hw.
    destruct (IH Hrest
                (mkRun
                   (fst (Write dst (dest st)
                           (text (protoWriteMessageTyp P r (messageName P f false) (names st)
                                    (selectArgs P f false))
                              ++ text (protoWriteMessageTyp P r (messageName P f true)
                                         (registry (protoWriteMessageTyp P r
                                                      (messageName P f false) (names st)
                                                      (selectArgs P f false)))
                                         (selectArgs P f true)))))
                   (registry (protoWriteMessageTyp P r (messageName P f true)
                                (registry (protoWriteMessageTyp P r
                                             (messageName P f false) (names st)
                                             (selectArgs P f false)))
                                (selectArgs P f true)))
                   (services st ++ [rpcLine P f])%list)) as [st' [Hloop Hsvc]].
    exists st'. split; [exact Hloop|].
    rewrite Hsvc. simpl. rewrite <- app_assoc. reflexivity.
Qed.

Lemma FunLoop_services functions :
  forall st st' e,
    FunLoop P r dst functions st = (st', e) ->
    exists l,
      services st' = (services st ++ l)%list
      /\ l `sublist_of` map (rpcLine P) functions.
Proof.
  induction functions as [|f rest IH]; intros st st' e; simpl.
  - intros [= <- _]. exists []. rewrite app_nil_r. split; [reflexivity | constructor].
  - destruct (Function_SaveProtobuf P r dst f (dest st) (names st)) as [[w s] [err|]].
    + destruct (SkipMissingTableOf P && isMissingTableOf err).
      * intros H. destruct (IH _ _ _ H) as [l [Hl Hsub]].
        exists l. split; [exact Hl | apply sublist_cons_r; left; exact Hsub].
      * intros [= <- _]. exists []. rewrite app_nil_r.
        split; [reflexivity | apply sublist_nil_l].
    + intros H. destruct (IH _ _ _ H) as [l [Hl Hsub]].
      exists (rpcLine P f :: l). simpl in Hl. rewrite <- app_assoc in Hl.
      split; [exact Hl | apply sublist_skip; exact Hsub].
Qed.

End WholeLoop.

(** X11: with [SkipMissingTableOf] set, [SaveProtobuf] never returns
    an error of a missing [TableOf]: an error it returns has another
    cause. *)
Theorem X11_skip_policy_hides_missing_TableOf
  (P : Package) (r : protoOptions -> list (string * optVal)) (dst : Writer)
  (w : sink dst) (functions : list Function) (pkg : string) (e : error) :
  SkipMissingTableOf P = true ->
  snd (SaveProtobuf P r dst w functions pkg) = Some e ->
  Cause e <> ErrMissingTableOf.
Proof.
  intros Hskip. rewrite SaveProtobuf_finish. unfold finish.
  destruct (FunLoop P r dst functions _) as [st [err|]] eqn:Hloop; [|discriminate].
  simpl. intros [= <-].
  pose proof (FunLoop_skip_error P r dst functions Hskip
                (mkRun (writeHeader P dst w pkg) ∅ []) err) as H.
  rewrite Hloop in H. specialize (H eq_refl).
  unfold isMissingTableOf in H. intros Hc. rewrite Hc in H. discriminate H.
Qed.

Lemma X11_skip_policy_hides_missing_TableOf_witness :
  Cause (SinkError "no space left on device") <> ErrMissingTableOf.
Proof.
  assert (H : snd (SaveProtobuf (Demo.pkg true false false) listOrder fillingWriter
                     (2, EmptyString) [tableless; Demo.get_emp] "main")
              = Some (SinkError "no space left on device")).
  { vm_compute. reflexivity. }
  exact (X11_skip_policy_hides_missing_TableOf (Demo.pkg true false false) listOrder
           fillingWriter (2, EmptyString) [tableless; Demo.get_emp] "main" _ eq_refl H).
Defined.

(** X12: on a destination whose writes never fail, [SaveProtobuf] with
    [SkipMissingTableOf] set returns [nil] for every list of
    functions. *)
Theorem X12_reliable_destination_never_fails
  (P : Package) (r : protoOptions -> list (string * optVal)) (dst : Writer)
  (w : sink dst) (functions : list Function) (pkg : string) :
  (forall w' p, snd (Write dst w' p) = None) ->
  SkipMissingTableOf P = true ->
  snd (SaveProtobuf P r dst w functions pkg) = None.
Proof.
  intros Hw Hskip. rewrite SaveProtobuf_finish. unfold finish.
  pose proof (FunLoop_reliable P r dst functions Hw Hskip
                (mkRun (writeHeader P dst w pkg) ∅ [])) as H.
  destruct (FunLoop P r dst functions _) as [st [err|]]; [discriminate H | reflexivity].
Qed.

Lemma X12_reliable_destination_never_fails_witness :
  snd (SaveProtobuf (Demo.pkg true false false) listOrder bufferWriter EmptyString
         [tableless; selfNested; recordUser] "main") = None.
Proof.
  exact (X12_reliable_destination_never_fails (Demo.pkg true false false) listOrder
           bufferWriter EmptyString [tableless; selfNested; recordUser] "main"
           (fun _ _ => eq_refl) eq_refl).
Defined.

(** X13: when no table of any function lacks its [TableOf] and the
    writes of the destination do not fail, [SaveProtobuf] returns
    [nil] under either policy and the service block has the rpc entry
    of every function, once, in the order of the list. *)
Theorem X13_complete_functions_all_served
  (P : Package) (r : protoOptions -> list (string * optVal)) (dst : Writer)
  (w : sink dst) (functions : list Function) (pkg : string) :
  (forall w' p, snd (Write dst w' p) = None) ->
  forallb completeFunction functions = true ->
  exists w',
    SaveProtobuf P r dst w functions pkg
    = (writeService P dst w' pkg (map (rpcLine P) functions), None).
Proof.
  intros Hw Hc. rewrite SaveProtobuf_finish.
  destruct (FunLoop_complete P r dst functions Hw Hc (mkRun (writeHeader P dst w pkg) ∅ []))
    as [st' [Hloop Hsvc]].
  rewrite Hloop. exists (dest st'). unfold finish. rewrite Hsvc. reflexivity.
Qed.

Lemma X13_complete_functions_all_served_witness :
  exists w',
    SaveProtobuf (Demo.pkg false false false) listOrder bufferWriter EmptyString
      [Demo.get_emp; recordUser] "main"
    = (writeService (Demo.pkg false false false) bufferWriter w' "main"
         (map (rpcLine (Demo.pkg false false false)) [Demo.get_emp; recordUser]), None).
Proof.
  exact (X13_complete_functions_all_served (Demo.pkg false false false) listOrder
           bufferWriter EmptyString [Demo.get_emp; recordUser] "main"
           (fun _ _ => eq_refl) eq_refl).
Defined.

(** X14: whenever [SaveProtobuf] returns [nil], the entries of the
    service block it has written are rpc entries of the functions of
    the list, in the order of the list and none of them twice over: a
    function has at most its own entry. *)
Theorem X14_service_entries_in_order
  (P : Package) (r : protoOptions -> list (string * optVal)) (dst : Writer)
  (w : sink dst) (functions : list Function) (pkg : string) :
  snd (SaveProtobuf P r dst w functions pkg) = None ->
  exists w' entries,
    SaveProtobuf P r dst w functions pkg = (writeService P dst w' pkg entries, None)
    /\ entries `sublist_of` map (rpcLine P) functions.
Proof.
  rewrite SaveProtobuf_finish. unfold finish.
  destruct (FunLoop P r dst functions _) as [st [err|]] eqn:Hloop; [discriminate|].
  intros _. destruct (FunLoop_services P r dst functions _ _ _ Hloop) as [l [Hl Hsub]].
  exists (dest st), (services st). split; [reflexivity|].
  simpl in Hl. rewrite Hl. exact Hsub.
Qed.

Lemma X14_service_entries_in_order_witness :
  exists w' entries,
    SaveProtobuf (Demo.pkg true false false) listOrder bufferWriter EmptyString
      [Demo.get_emp; tableless; recordUser] "main"
    = (writeService (Demo.pkg true false false) bufferWriter w' "main" entries, None)
    /\ entries `sublist_of`
        map (rpcLine (Demo.pkg true false false)) [Demo.get_emp; tableless; recordUser].
Proof.
  assert (H : snd (SaveProtobuf (Demo.pkg true false false) listOrder bufferWriter
                     EmptyString [Demo.get_emp; tableless; recordUser] "main") = None).
  { vm_compute. reflexivity. }
  exact (X14_service_entries_in_order (Demo.pkg true false false) listOrder bufferWriter
           EmptyString [Demo.get_emp; tableless; recordUser] "main" H).
Defined.

(** ** The schema in a buffer *)

(** The lines [SaveProtobuf] writes before the messages. *)
Definition headerText (P : Package) (pkg : string) : string :=
  ("syntax = " ++ dq ++ "proto3" ++ dq ++ ";" ++ nl ++ nl)
    ++ (if negb (String.eqb pkg EmptyString) then "package " ++ pkg ++ ";" ++ nl
        else EmptyString)
    ++ (if Gogo P
        then nl ++ tab ++ "import " ++ dq
               ++ "github.com/gogo/protobuf/gogoproto/gogo.proto" ++ dq ++ ";" ++ nl
        else EmptyString).

(** The service block over the entries [svcs]. *)
Definition serviceText (P : Package) (pkg : string) (svcs : list string) : string :=
  (nl ++ "service " ++ CamelCase P pkg ++ " {" ++ nl)
    ++ concatS (map (fun s => tab ++ s ++ nl) svcs) ++ "}".

Section InBuffer.

Context (P : Package) (r : protoOptions -> list (string * optVal)).

Lemma writeHeader_buffer w pkg :
  writeHeader P bufferWriter w pkg = w ++ headerText P pkg.
Proof.
  unfold writeHeader, headerText. simpl.
  destruct (negb (String.eqb pkg EmptyString)), (Gogo P);
    rewrite ?append_assoc, ?append_nil_r; reflexivity.
Qed.

Lemma writeService_buffer w pkg svcs :
  writeService P bufferWriter w pkg svcs = w ++ serviceText P pkg svcs.
Proof.
  unfold writeService, serviceText. simpl.
  assert (Hfold : forall l w0,
             fold_left (fun (w1 : string) s => w1 ++ tab ++ s ++ nl) l w0
             = w0 ++ concatS (map (fun s => tab ++ s ++ nl) l)).
  { induction l as [|s l IH]; intros w0; simpl.
    - rewrite append_nil_r. reflexivity.
    - rewrite IH, append_assoc. reflexivity. }
  rewrite Hfold, !append_assoc. reflexivity.
Qed.

(** The text [Function.SaveProtobuf] writes for [f] when both
    directions are emitted, the registry being [s] before the call. *)
Definition bothMessages (fs : Function * gset string) : string :=
  text (saveProtobufDir P r (fst fs) (snd fs) false)
    ++ text (saveProtobufDir P r (fst fs)
               (registry (saveProtobufDir P r (fst fs) (snd fs) false)) true).

(** Both directions of [f] are emitted without error from the
    registry [s]. *)
Definition bothEmitted (fs : Function * gset string) : Prop :=
  failure (saveProtobufDir P r (fst fs) (snd fs) false) = None
  /\ failure (saveProtobufDir P r (fst fs)
                (registry (saveProtobufDir P r (fst fs) (snd fs) false)) true) = None.

(** In a buffer the loop adds the messages of the functions it does
    not leave out, and the service entries of these same functions. *)
Lemma FunLoop_buffer functions :
  forall st st' e,
    FunLoop P r bufferWriter functions st = (st', e) ->
    exists served : list (Function * gset string),
      map fst served `sublist_of` functions
      /\ Forall bothEmitted served
      /\ dest st' = dest st ++ concatS (map bothMessages served)
      /\ services st' = (services st ++ map (rpcLine P) (map fst served))%list.
Proof.
  induction functions as [|f rest IH]; intros st st' e; simpl.
  - intros [= <- _]. exists []. simpl. rewrite append_nil_r, app_nil_r.
    split; [constructor | split; [constructor | split; reflexivity]].
  - rewrite Function_SaveProtobuf_cases.
    destruct (failure (saveProtobufDir P r f (names st) false)) as [e1|] eqn:H1;
      [|destruct (failure (saveProtobufDir P r f _ true)) as [e2|] eqn:H2].
    + destruct (SkipMissingTableOf P && isMissingTableOf (Wrapped e1 "input")).
      * intros H. destruct (IH _ _ _ H) as [served [Hsub [Hall [Hd Hs]]]].
        exists served. split; [apply sublist_cons_r; left; exact Hsub|].
        split; [exact Hall | split; [exact Hd | exact Hs]].
      * intros [= <- _]. exists []. simpl. rewrite append_nil_r, app_nil_r.
        split; [apply sublist_nil_l | split; [constructor | split; reflexivity]].
    + destruct (SkipMissingTableOf P && isMissingTableOf (Wrapped e2 "output")).
      * intros H. destruct (IH _ _ _ H) as [served [Hsub [Hall [Hd Hs]]]].
        exists served. split; [apply sublist_cons_r; left; exact Hsub|].
        split; [exact Hall | split; [exact Hd | exact Hs]].
      * intros [= <- _]. exists []. simpl. rewrite append_nil_r, app_nil_r.
        split; [apply sublist_nil_l | split; [constructor | split; reflexivity]].
    + simpl. intros H. destruct (IH _ _ _ H) as [served [Hsub [Hall [Hd Hs]]]].
      exists ((f, names st) :: served). simpl in *.
      split; [apply sublist_skip; exact Hsub|].
      split; [constructor; [split; [exact H1 | exact H2] | exact Hall]|].
      split.
      * rewrite Hd. unfold bothMessages at 2. simpl. apply append_assoc.
      * rewrite Hs, <- app_assoc. reflexivity.
Qed.

End InBuffer.

(** X15: written to a buffer, the schema keeps what the buffer held
    and adds, in this order: the header lines; for the functions that
    are not left out, in the order of the list, the two messages of
    each, both emitted without error; and, when [SaveProtobuf] returns [nil], the service block
    with the rpc entries of these same functions.  When it returns an
    error the output ends with the messages: no service block is
    written. *)
Theorem X15_schema_layout
  (P : Package) (r : protoOptions -> list (string * optVal))
  (w : string) (functions : list Function) (pkg : string) :
  exists served : list (Function * gset string),
    map fst served `sublist_of` functions
    /\ Forall (bothEmitted P r) served
    /\ fst (SaveProtobuf P r bufferWriter w functions pkg)
       = w ++ headerText P pkg
           ++ concatS (map (bothMessages P r) served)
           ++ match snd (SaveProtobuf P r bufferWriter w functions pkg) with
              | None => serviceText P pkg (map (rpcLine P) (map fst served))
              | Some _ => EmptyString
              end.
Proof.
  rewrite SaveProtobuf_finish. unfold finish.
  destruct (FunLoop P r bufferWriter functions _) as [st e] eqn:Hloop.
  destruct (FunLoop_buffer P r functions _ _ _ Hloop) as [served [Hsub [Hall [Hd Hs]]]].
  simpl in Hd, Hs. rewrite writeHeader_buffer in Hd.
  exists served. split; [exact Hsub|]. split; [exact Hall|].
  destruct e as [err|]; simpl.
  - rewrite Hd, append_nil_r. apply append_assoc.
  - rewrite writeService_buffer, Hd, Hs, !append_assoc. reflexivity.
Qed.

(** ** Messages over registered types *)

Section Registered.

Context (P : Package) (r : protoOptions -> list (string * optVal)).
Context {A : Type} (proj : A -> Argument).
Context (nested : A -> string -> gset string -> emitted) (msgName : string).

Lemma field_known i x st :
  missingTableOf (proj x) = false ->
  (isScalar (proj x) = false -> typeName P (proj x) ∈ seen st) ->
  field P r proj nested msgName i x st
  = (mkFrame (out st ++ fieldText P r i (proj x)) (side st) (seen st), None).
Proof.
  intros Hm Hknown.
  destruct (isScalar (proj x)) eqn:Hs; [exact (field_scalar P r proj nested msgName i x st Hs)|].
  specialize (Hknown eq_refl). revert Hknown.
  unfold field, fieldText, typeName. rewrite renamed_missingTableOf, Hm, renamed_isScalar, Hs.
  destruct (normalize P (renamed P (proj x))) as [rule got]. cbn [fst snd].
  destruct (protoType P got (Name (renamed P (proj x)))) as [typ pOpts]. cbn [fst snd].
  intros Hin.
  destruct (decide (CamelCase P typ ∈ seen st)); [reflexivity | contradiction].
Qed.

Lemma fields_known l :
  forall i st,
    Forall (fun x => missingTableOf (proj x) = false
                     /\ (isScalar (proj x) = false -> typeName P (proj x) ∈ seen st)) l ->
    fields P r proj nested msgName l i st
    = (mkFrame (out st ++ fieldTexts P r i (map proj l)) (side st) (seen st), None).
Proof.
  induction l as [|x l IH]; intros i st Hl; simpl.
  - unfold fieldTexts. simpl. rewrite append_nil_r. destruct st; reflexivity.
  - inversion Hl as [|? ? [Hm Hk] Hrest]; subst.
    rewrite (field_known i x st Hm Hk), (IH (S i)); [|exact Hrest]. simpl.
    unfold fieldTexts. cbn [length seq combine map concatS fst snd].
    rewrite append_assoc. reflexivity.
Qed.

End Registered.

(** X16: a message none of whose arguments is a table without
    [TableOf], and whose composite arguments all have their type name
    in the registry, is emitted without a recursive call: it cannot
    fail, whatever the trees below its arguments look like, the
    registry stays as it is, and the text is the header, the field
    groups and the closing brace, with no message behind it. *)
Theorem X16_registered_types_not_emitted
  (P : Package) (r : protoOptions -> list (string * optVal))
  (msgName : string) (s : gset string) (args : list Argument) :
  find missingTableOf args = None ->
  (forall a, In a args -> isScalar a = false -> typeName P a ∈ s) ->
  protoWriteMessageTyp P r msgName s args
  = mkEmitted (messageHeader msgName ++ fieldTexts P r 0 args ++ "}" ++ nl) s None.
Proof.
  intros Hfind Hknown. unfold protoWriteMessageTyp, writeMessage.
  rewrite map_id, Hfind.
  rewrite (fields_known P r (fun a => a) (nestedMessage P r) msgName args).
  - rewrite map_id. simpl. unfold buffers_Get.
    rewrite !append_assoc, append_nil_r. reflexivity.
  - apply Forall_forall. intros a Ha. apply list_elem_of_In in Ha. split.
    + destruct (missingTableOf a) eqn:Hm; [|reflexivity].
      pose proof (find_none _ _ Hfind a Ha) as Hn. congruence.
    + exact (Hknown a Ha).
Qed.

Lemma X16_registered_types_not_emitted_witness :
  protoWriteMessageTyp (Demo.pkg true false false) listOrder "M" {[ "HoledRec" ]}
    [holedRecord]
  = mkEmitted
      (messageHeader "M"
         ++ fieldTexts (Demo.pkg true false false) listOrder 0 [holedRecord] ++ "}" ++ nl)
      {[ "HoledRec" ]} None.
Proof.
  refine (X16_registered_types_not_emitted (Demo.pkg true false false) listOrder "M"
            {[ "HoledRec" ]} [holedRecord] eq_refl _).
  intros a [<- | []] _. vm_compute. set_solver.
Defined.
